(** * Autolinking: discovery, merge and resolve pipeline of
      [expo-modules-autolinking] (autolinking.ts / build/autolinking.js)

    The development embeds the TypeScript source function by function.
    JavaScript values read from JSON files are an inductive type, JavaScript
    objects used as records or maps are insertion-ordered association
    lists of own properties, read with what [Object.prototype] lends them and
    assigned to through their prototype, thrown errors and rejected promises
    are the [Throw] outcome, and a loop that may run forever takes fuel and
    ends in [Diverge] when it is exhausted.  The host (Node's [path], [find-up], [fast-glob], [fs],
    [require], the platform modules and [String.prototype.localeCompare]) is a
    record of functions, [Host], over which every definition is stated. *)

From Stdlib Require Import String Ascii List ZArith NArith Lia Bool.
From Stdlib Require Import Permutation Sorted DecimalString.
From Stdlib Require OrderedTypeEx.
Import ListNotations.
Local Open Scope string_scope.
Local Open Scope list_scope.

(** ** Outcomes of (asynchronous) computations *)

Module JS.

(** What a [throw] carries.  The program never inspects an error, it only
    propagates or swallows it. *)
Inductive JsError : Type :=
| TypeError (msg : string)
| ModuleNotFound (request : string)
| HostError (msg : string).

(** Result of running a function body (or of awaiting a promise): a value,
    a thrown error (rejection), or no result at all (the promise stays
    pending / the loop does not end). *)
Inductive Outcome (A : Type) : Type :=
| Ok (a : A)
| Throw (e : JsError)
| Diverge.

Arguments Ok {A} a.
Arguments Throw {A} e.
Arguments Diverge {A}.

Definition bind {A B : Type} (m : Outcome A) (k : A -> Outcome B) : Outcome B :=
  match m with
  | Ok a => k a
  | Throw e => Throw e
  | Diverge => Diverge
  end.

Definition isThrow {A : Type} (m : Outcome A) : bool :=
  match m with Throw _ => true | _ => false end.

Declare Scope js_scope.
Delimit Scope js_scope with js.
Notation "x <- m ;; k" := (bind m (fun x => k))
  (at level 61, m at next level, right associativity) : js_scope.
Notation "' p <- m ;; k" := (bind m (fun p => k))
  (at level 61, p pattern, m at next level, right associativity) : js_scope.

(** ** JavaScript values

    The values that [require] yields for a JSON file, plus [undefined] (the
    value of a missing property).  Numbers are restricted to integers. *)
#[warnings="-register-all"]
Inductive JVal : Type :=
| JUndef
| JNull
| JBool (b : bool)
| JNum (n : Z)
| JStr (s : string)
| JArr (items : list JVal)
| JObj (fields : list (string * JVal)).

(** *** Objects as insertion-ordered maps

    An object is the list of its own properties, in insertion order.  What
    it inherits from its prototype is the matter of [slot] and of
    [JsObject] below. *)

Section Obj.
Context {V : Type}.

Definition Obj := list (string * V).

Fixpoint get (k : string) (o : Obj) : option V :=
  match o with
  | [] => None
  | (k', v) :: o' => if String.eqb k k' then Some v else get k o'
  end.

(** [o[k] = v]: overwrite in place, or append a new property. *)
Fixpoint set (k : string) (v : V) (o : Obj) : Obj :=
  match o with
  | [] => [(k, v)]
  | (k', v') :: o' =>
      if String.eqb k k' then (k', v) :: o' else (k', v') :: set k v o'
  end.

Definition keys (o : Obj) : list string := map fst o.
End Obj.
Arguments Obj V : clear implicits.

(** *** What every object inherits

    The properties of [Object.prototype].  An object literal [{}] used as a
    map has them all: [o[k]] for one of these names is a function (for
    [__proto__], the prototype itself) unless [o] has an own property [k]. *)
Definition objectPrototypeKeys : list string :=
  ["constructor"; "__defineGetter__"; "__defineSetter__"; "hasOwnProperty";
   "__lookupGetter__"; "__lookupSetter__"; "isPrototypeOf";
   "propertyIsEnumerable"; "toString"; "valueOf"; "__proto__";
   "toLocaleString"].

Definition inheritedKey (k : string) : bool :=
  existsb (String.eqb k) objectPrototypeKeys.

(** What [o[k]] finds on a map that starts as [{}]: an own property, a
    built-in of [Object.prototype] (truthy, not a string, without [path] or
    [duplicates]), or nothing ([undefined]). *)
Inductive Slot (V : Type) : Type :=
| Own (v : V)
| Inherited
| Absent.

Arguments Own {V} v.
Arguments Inherited {V}.
Arguments Absent {V}.

Definition slot {V : Type} (k : string) (o : Obj V) : Slot V :=
  match get k o with
  | Some v => Own v
  | None => if inheritedKey k then Inherited else Absent
  end.

(** *** Property enumeration order

    [Object.keys], [Object.values], [Object.entries], [for-in], spread and
    [Object.assign] visit the own properties whose key is an array index
    first, in ascending numeric order, and then the other string keys in
    insertion order. *)

Definition digitOf (c : ascii) : option N :=
  let n := N_of_ascii c in
  if ((48 <=? n) && (n <=? 57))%N then Some (n - 48)%N else None.

Fixpoint parseDigits (s : string) (acc : N) : option N :=
  match s with
  | EmptyString => Some acc
  | String c s' =>
      match digitOf c with
      | Some d => parseDigits s' (acc * 10 + d)%N
      | None => None
      end
  end.

(** The canonical numeric strings below 2^32 - 1. *)
Definition arrayIndex (s : string) : option N :=
  match s with
  | EmptyString => None
  | String c rest =>
      if (Ascii.eqb c "0"%char) && negb (String.eqb rest EmptyString) then None
      else match parseDigits s 0%N with
           | Some n => if (n <? 4294967295)%N then Some n else None
           | None => None
           end
  end.

Section Enumerate.
Context {V : Type}.

Fixpoint insertIndexed (x : N * (string * V)) (l : list (N * (string * V)))
  : list (N * (string * V)) :=
  match l with
  | [] => [x]
  | y :: l' => if (fst x <=? fst y)%N then x :: y :: l' else y :: insertIndexed x l'
  end.

Fixpoint splitIndexed (o : Obj V) : list (N * (string * V)) * Obj V :=
  match o with
  | [] => ([], [])
  | kv :: o' =>
      let '(ix, named) := splitIndexed o' in
      match arrayIndex (fst kv) with
      | Some n => (insertIndexed (n, kv) ix, named)
      | None => (ix, kv :: named)
      end
  end.

Definition entries (o : Obj V) : Obj V :=
  let '(ix, named) := splitIndexed o in map snd ix ++ named.

Definition objectValues (o : Obj V) : list V := map snd (entries o).
End Enumerate.

(** *** Conversions *)

Definition natToString (n : nat) : string := NilZero.string_of_uint (Nat.to_uint n).
Definition zToString (z : Z) : string := NilZero.string_of_int (Z.to_int z).

Fixpoint joinWith (sep : string) (l : list string) : string :=
  match l with
  | [] => EmptyString
  | [s] => s
  | s :: l' => s ++ sep ++ joinWith sep l'
  end.

(** [ToString]. *)
Fixpoint toString (v : JVal) : string :=
  match v with
  | JUndef => "undefined"
  | JNull => "null"
  | JBool true => "true"
  | JBool false => "false"
  | JNum n => zToString n
  | JStr s => s
  | JArr items =>
      joinWith ","
        (map (fun x => match x with
                       | JUndef | JNull => EmptyString
                       | _ => toString x
                       end) items)
  | JObj _ => "[object Object]"
  end.

(** [ToBoolean]. *)
Definition truthy (v : JVal) : bool :=
  match v with
  | JUndef | JNull => false
  | JBool b => b
  | JNum n => negb (Z.eqb n 0)
  | JStr s => negb (String.eqb s EmptyString)
  | JArr _ | JObj _ => true
  end.

(** [SameValueZero] between values that do not share a reference: two
    arrays or objects parsed from files are never the same object. *)
Definition sameValueZero (a b : JVal) : bool :=
  match a, b with
  | JUndef, JUndef => true
  | JNull, JNull => true
  | JBool x, JBool y => Bool.eqb x y
  | JNum x, JNum y => Z.eqb x y
  | JStr x, JStr y => String.eqb x y
  | _, _ => false
  end.

Fixpoint strIncludes (needle hay : string) : bool :=
  String.prefix needle hay ||
  match hay with
  | EmptyString => false
  | String _ hay' => strIncludes needle hay'
  end.

Fixpoint chars (s : string) : list JVal :=
  match s with
  | EmptyString => []
  | String c s' => JStr (String c EmptyString) :: chars s'
  end.

Fixpoint indexedFrom (i : nat) (l : list JVal) : Obj JVal :=
  match l with
  | [] => []
  | x :: l' => (natToString i, x) :: indexedFrom (S i) l'
  end.

Definition orUndef (o : option JVal) : JVal :=
  match o with Some v => v | None => JUndef end.

Definition elementAt (k : string) (l : list JVal) : JVal :=
  if String.eqb k "length" then JNum (Z.of_nat (List.length l))
  else match arrayIndex k with
       | Some n => nth (N.to_nat n) l JUndef
       | None => JUndef
       end.

(** [v.k] / [v[k]].  Reading a property of [undefined] or [null] throws; a
    property inherited from a prototype (a method) reads as [JUndef], which
    the program cannot tell apart: it only passes such a value to
    [Object.assign], where a function contributes no property. *)
Definition getProp (v : JVal) (k : string) : Outcome JVal :=
  match v with
  | JUndef | JNull => Throw (TypeError ("Cannot read property " ++ k))
  | JObj fields => Ok (orUndef (get k fields))
  | JArr items => Ok (elementAt k items)
  | JStr s => Ok (elementAt k (chars s))
  | JBool _ | JNum _ => Ok JUndef
  end.

(** [v?.k]. *)
Definition getPropOpt (v : JVal) (k : string) : JVal :=
  match getProp v k with Ok x => x | _ => JUndef end.

(** [v?.includes(x)]: [undefined] on a nullish receiver,
    [Array.prototype.includes] on an array, [String.prototype.includes] on a
    string, and a TypeError when the receiver has no such method. *)
Definition includesOpt (v x : JVal) : Outcome JVal :=
  match v with
  | JUndef | JNull => Ok JUndef
  | JArr items => Ok (JBool (existsb (sameValueZero x) items))
  | JStr s => Ok (JBool (strIncludes (toString x) s))
  | JBool _ | JNum _ | JObj _ => Throw (TypeError "includes is not a function")
  end.

(** The own enumerable properties that [Object.assign] and spread copy
    from a source, in the order they copy them. *)
Definition ownProps (v : JVal) : Obj JVal :=
  match v with
  | JObj fields => entries fields
  | JArr items => indexedFrom 0 items
  | JStr s => indexedFrom 0 (chars s)
  | _ => []
  end.

(** Spread in an object literal, [{ ...target, ...src }]: every property
    is defined on the new object as an own property, whatever its name. *)
Definition spreadProps (target src : Obj JVal) : Obj JVal :=
  fold_left (fun t kv => set (fst kv) (snd kv) t) src target.

(** *** Objects with a prototype

    [Object.assign] does not define properties, it assigns them, and an
    assignment to [__proto__] that reaches the accessor of
    [Object.prototype] replaces the prototype of the target instead of
    creating a property.  What the target then inherits is read through
    it. *)
Inductive Proto : Type :=
| ObjectPrototype
| NullPrototype
| ValuePrototype (v : JVal).

Record JsObject : Type := mkObject {
  ownOf : Obj JVal;
  protoOf : Proto
}.

(** An object with the given own properties and the prototype of an object
    literal. *)
Definition plain (o : Obj JVal) : JsObject := mkObject o ObjectPrototype.

(** [{}] *)
Definition emptyObject : JsObject := plain [].

(** [o.k] for the keys that the program reads from an options object,
    [searchPaths], [exclude] and [platform], none of them a built-in of
    [Object.prototype] or of [Array.prototype]: the own property, else the
    own property of the prototype, else [undefined]. *)
Definition readProp (o : JsObject) (k : string) : JVal :=
  match get k (ownOf o) with
  | Some v => v
  | None =>
      match protoOf o with
      | ValuePrototype v => getPropOpt v k
      | ObjectPrototype | NullPrototype => JUndef
      end
  end.

(** Whether an assignment to [__proto__] on an object with this prototype
    and no such own property reaches the accessor of [Object.prototype]: not
    past a [null] prototype, and not past a prototype with an own (data)
    property of that name. *)
Definition reachesProtoSetter (p : Proto) : bool :=
  match p with
  | ObjectPrototype => true
  | NullPrototype => false
  | ValuePrototype (JObj fields) =>
      match get "__proto__" fields with
      | Some _ => false
      | None => true
      end
  | ValuePrototype _ => true
  end.

(** The setter of [__proto__]: an object (or array) or [null] becomes the
    prototype, any other value is ignored. *)
Definition setPrototype (p : Proto) (v : JVal) : Proto :=
  match v with
  | JObj _ | JArr _ => ValuePrototype v
  | JNull => NullPrototype
  | _ => p
  end.

(** [o[k] = v] *)
Definition writeProp (o : JsObject) (k : string) (v : JVal) : JsObject :=
  match get k (ownOf o) with
  | Some _ => mkObject (set k v (ownOf o)) (protoOf o)
  | None =>
      if String.eqb k "__proto__" && reachesProtoSetter (protoOf o)
      then mkObject (ownOf o) (setPrototype (protoOf o) v)
      else mkObject (set k v (ownOf o)) (protoOf o)
  end.

Definition assignProps (target : JsObject) (src : Obj JVal) : JsObject :=
  fold_left (fun t kv => writeProp t (fst kv) (snd kv)) src target.

(** [Object.assign(target, ...sources)]. *)
Definition objectAssign (target : JsObject) (sources : list JVal) : JsObject :=
  fold_left (fun t s => assignProps t (ownProps s)) sources target.

(** *** [Array.prototype.sort]

    With a comparator that may throw.  The order of the result is fixed by
    the language for a consistent comparator: a stable sort. *)
Section Sort.
Context {A : Type} (cmp : A -> A -> Outcome Z).

Fixpoint insertSorted (x : A) (l : list A) : Outcome (list A) :=
  match l with
  | [] => Ok [x]
  | y :: l' =>
      bind (cmp x y) (fun c =>
        if (c <=? 0)%Z then Ok (x :: y :: l')
        else bind (insertSorted x l') (fun r => Ok (y :: r)))
  end.

Fixpoint arraySort (l : list A) : Outcome (list A) :=
  match l with
  | [] => Ok []
  | x :: l' => bind (arraySort l') (insertSorted x)
  end.
End Sort.

(** *** [Promise.all]

    [order] lists the indices of the promises in the order in which they
    settle.  The result rejects with the first rejection to happen, stays
    pending when no promise rejects and one never settles, and otherwise
    fulfils with the values in the order of the promises. *)
Section PromiseAll.
Context {A : Type}.

Fixpoint firstThrow (l : list (Outcome A)) : option JsError :=
  match l with
  | [] => None
  | Throw e :: _ => Some e
  | _ :: l' => firstThrow l'
  end.

Fixpoint collect (l : list (Outcome A)) : Outcome (list A) :=
  match l with
  | [] => Ok []
  | Ok a :: l' => bind (collect l') (fun r => Ok (a :: r))
  | Throw e :: _ => Throw e
  | Diverge :: _ => Diverge
  end.

Definition settled (order : list nat) (l : list (Outcome A)) : list (Outcome A) :=
  map (fun i => nth i l Diverge) order.

Definition promiseAll (order : list nat) (l : list (Outcome A)) : Outcome (list A) :=
  match firstThrow (settled order l ++ l) with
  | Some e => Throw e
  | None => collect l
  end.
End PromiseAll.

End JS.

Import JS.
Local Open Scope js_scope.

(** ** Data model

    The type declarations are imported from [./types], which is not among
    the sources; they follow the spec's data model and the fields the code
    reads and writes. *)

(** Modelled from the spec: [PackageRevision], [{ path, version }], one
    on-disk location of a named module ([types.ts] is missing). *)
Record PackageRevision : Type := mkRevision {
  path : string;
  version : string
}.

(** Modelled from the spec: an entry of [SearchResults], a revision plus
    its list of duplicates ([types.ts] is missing).  The code reads the list
    through [duplicates?.], so it may be absent. *)
Record PrimaryRevision : Type := mkPrimary {
  primary : PackageRevision;
  duplicates : option (list PackageRevision)
}.

(** Modelled from the spec: [SearchResults], module name to primary
    revision ([types.ts] is missing). *)
Definition SearchResults := Obj PrimaryRevision.

(** Modelled from the spec: [ModuleDescriptor], an object with
    [packageName], [packageVersion] and the platform-specific fields
    ([types.ts] is missing). *)
Definition ModuleDescriptor := Obj JVal.

(** The [name] and [version] that [findModulesAsync] destructures from the
    [package.json] of a package.  Both are strings in the manifest of an
    installed package, which is what the version of a [PackageRevision] and
    the keys of [SearchResults] are in the data model. *)
Record PackageJson : Type := mkPackageJson {
  name : string;
  pkgVersion : string
}.

(** A generated source file: where it is written and what it holds. *)
Record Artifact : Type := mkArtifact {
  artifactTarget : string;
  artifactContent : string
}.

(** What the process leaves behind: files written by an emitter and the
    lines sent to the console. *)
Record World : Type := mkWorld {
  artifacts : list Artifact;
  console : list string
}.

(** A module under [./platforms/]: the platform capability.  Either export
    may be missing from a module.  [emitPackageListAsync] is the module's
    own [generatePackageListAsync]; it returns what it wrote along with its
    outcome. *)
Record PlatformLinking : Type := mkPlatformLinking {
  resolveModuleAsync :
    option (string -> PrimaryRevision -> Obj JVal -> Outcome JVal);
  emitPackageListAsync :
    option (list ModuleDescriptor -> JVal -> JVal -> Outcome unit * list Artifact)
}.

(** ** The host *)

Record Host : Type := mkHost {
  (** [process.cwd()] *)
  processCwd : string;
  (** [path.dirname], [path.basename], [path.join], [path.resolve] *)
  pathDirname : string -> string;
  pathBasename : string -> string;
  pathJoin : list string -> string;
  pathResolve : string -> string -> string;
  (** [findUp(name, { cwd })]: the nearest file of that name in [cwd] or an
      ancestor of it *)
  findUp : string -> string -> option string;
  (** [glob(patterns, { cwd })] *)
  glob : list string -> string -> list string;
  (** [fs.realpath] *)
  realpath : string -> Outcome string;
  (** [require] of a JSON file: the root manifest and the module configs *)
  requireJson : string -> Outcome JVal;
  (** [require] of the [package.json] of a package *)
  requireManifest : string -> Outcome PackageJson;
  (** [require] of a platform module *)
  requirePlatform : string -> Outcome PlatformLinking;
  (** [a.localeCompare(b)] *)
  localeCompare : string -> string -> Z;
  (** [s > 0] for a string [s] (its numeric value is the host's business) *)
  stringIsPositive : string -> bool;
  (** [chalk.red] *)
  chalkRed : string -> string
}.

(** The host with another [require] for JSON files. *)
Definition withRequireJson (H : Host) (f : string -> Outcome JVal) : Host :=
  mkHost (processCwd H) (pathDirname H) (pathBasename H) (pathJoin H)
         (pathResolve H) (findUp H) (glob H) (realpath H) f
         (requireManifest H) (requirePlatform H) (localeCompare H)
         (stringIsPositive H) (chalkRed H).

(** The host with another string comparison. *)
Definition withLocaleCompare (H : Host) (f : string -> string -> Z) : Host :=
  mkHost (processCwd H) (pathDirname H) (pathBasename H) (pathJoin H)
         (pathResolve H) (findUp H) (glob H) (realpath H) (requireJson H)
         (requireManifest H) (requirePlatform H) f
         (stringIsPositive H) (chalkRed H).

(** ** The program *)

Section Autolinking.
Variable H : Host.

(** Names of the config files.  From lowest to highest priority. *)
Definition EXPO_MODULE_CONFIG_FILENAMES : list string :=
  ["unimodule.json"; "expo-module.config.json"].

(** [v > 0] *)
Definition greaterThanZero (v : JVal) : bool :=
  match v with
  | JUndef => false
  | JNull => false
  | JBool b => b
  | JNum n => (0 <? n)%Z
  | JStr s => stringIsPositive H s
  | JArr _ => stringIsPositive H (toString v)
  | JObj _ => false
  end.

(** [searchPaths.map(searchPath => path.resolve(cwd, searchPath))]; only an
    array has [map], and [path.resolve] throws on a non-string. *)
Fixpoint resolveEach (cwd : string) (items : list JVal) : Outcome (list string) :=
  match items with
  | [] => Ok []
  | JStr p :: rest =>
      r <- resolveEach cwd rest ;; Ok (pathResolve H cwd p :: r)
  | _ :: _ => Throw (TypeError "The path argument must be of type string")
  end.

(** Looks up for workspace's [node_modules] paths. *)
Fixpoint findDefaultPathsLoop (fuel : nat) (dir : string) (paths : list string)
  : Outcome (list string) :=
  match fuel with
  | O => Diverge
  | S fuel' =>
      match findUp H "package.json" dir with
      | Some pkgJsonPath =>
          findDefaultPathsLoop fuel'
            (pathDirname H (pathDirname H pkgJsonPath))
            (paths ++ [pathJoin H [pkgJsonPath; ".."; "node_modules"]])
      | None => Ok paths
      end
  end.

Definition findDefaultPathsAsync (fuel : nat) (cwd : string) : Outcome (list string) :=
  findDefaultPathsLoop fuel cwd [].

(** Resolves autolinking search paths. *)
Definition resolveSearchPathsAsync (fuel : nat) (searchPaths : JVal) (cwd : string)
  : Outcome (list string) :=
  if truthy searchPaths && greaterThanZero (getPropOpt searchPaths "length")
  then match searchPaths with
       | JArr items => resolveEach cwd items
       | _ => Throw (TypeError "searchPaths.map is not a function")
       end
  else findDefaultPathsAsync fuel cwd.

(** Finds project's package.json and returns its path. *)
Definition findPackageJsonPathAsync : option string :=
  findUp H "package.json" (processCwd H).

(** [baseOptions?.[providedOptions.platform]] guarded by
    [providedOptions.platform &&]. *)
Definition platformOptionsOf (baseOptions platform : JVal) : JVal :=
  if truthy platform then getPropOpt baseOptions (toString platform) else platform.

(** The three layers handed to [Object.assign], lowest priority first. *)
Definition optionLayers (packageJson : JVal) (providedOptions : JsObject)
  : Outcome (list JVal) :=
  expo <- getProp packageJson "expo" ;;
  let baseOptions := getPropOpt expo "autolinking" in
  let platformOptions :=
    platformOptionsOf baseOptions (readProp providedOptions "platform") in
  Ok [baseOptions; platformOptions; JObj (ownOf providedOptions)].

(** Merges autolinking options from different sources. *)
Definition mergeLinkingOptionsAsync (fuel : nat) (providedOptions : JsObject)
  : Outcome JsObject :=
  packageJson <- match findPackageJsonPathAsync with
                 | Some packageJsonPath => requireJson H packageJsonPath
                 | None => Ok (JObj [])
                 end ;;
  layers <- optionLayers packageJson providedOptions ;;
  let finalOptions := objectAssign emptyObject layers in
  searchPaths <- resolveSearchPathsAsync fuel
                   (readProp finalOptions "searchPaths") (processCwd H) ;;
  Ok (writeProp finalOptions "searchPaths" (JArr (map JStr searchPaths))).

(** [EXPO_MODULE_CONFIG_FILENAMES.indexOf(name)] *)
Fixpoint indexOf (x : string) (l : list string) (i : Z) : Z :=
  match l with
  | [] => (-1)%Z
  | y :: l' => if String.eqb y x then i else indexOf x l' (i + 1)%Z
  end.

(** Returns the priority of the config at given path. *)
Definition configPriority (fullpath : string) : Z :=
  indexOf (pathBasename H fullpath) EXPO_MODULE_CONFIG_FILENAMES 0%Z.

(** A loop ([for-of], [reduce]) whose body may throw. *)
Fixpoint forEach {A S : Type} (body : S -> A -> Outcome S) (l : list A) (s : S)
  : Outcome S :=
  match l with
  | [] => Ok s
  | x :: l' => s' <- body s x ;; forEach body l' s'
  end.

(** The callback of [paths.reduce].  [acc] starts as [{}]: when the
    directory is named as a built-in of [Object.prototype], [acc[dirname]]
    is that built-in, [!acc[dirname]] is false, and [configPriority] hands
    it to [path.basename], which throws on what is not a string. *)
Definition keepHighestPriority (acc : Obj string) (configPath : string)
  : Outcome (Obj string) :=
  let dirname := pathDirname H configPath in
  match slot dirname acc with
  | Absent => Ok (set dirname configPath acc)
  | Own kept =>
      if String.eqb kept EmptyString || (configPriority configPath >? configPriority kept)%Z
      then Ok (set dirname configPath acc)
      else Ok acc
  | Inherited => Throw (TypeError "The path argument must be of type string")
  end.

Definition uniqueConfigPaths (paths : list string) : Outcome (list string) :=
  acc <- forEach keepHighestPriority paths [] ;;
  Ok (objectValues acc).

Definition bracedFilenames : string :=
  "{" ++ joinWith "," EXPO_MODULE_CONFIG_FILENAMES ++ "}".

Definition configPatterns : list string :=
  [("*/" ++ bracedFilenames)%string; ("@*/*/" ++ bracedFilenames)%string].

(** The strings of [options.searchPaths]. *)
Definition searchPathsOf (options : JsObject) : list string :=
  match readProp options "searchPaths" with
  | JArr items =>
      flat_map (fun v => match v with JStr s => [s] | _ => [] end) items
  | _ => []
  end.

(** [options.exclude?.includes(name) ||
     !packageConfig.platforms?.includes(options.platform)] *)
Definition skipPackage (options : JsObject) (packageConfig : JVal) (pkgName : string)
  : Outcome bool :=
  excluded <- includesOpt (readProp options "exclude") (JStr pkgName) ;;
  if truthy excluded then Ok true
  else
    platforms <- getProp packageConfig "platforms" ;;
    supported <- includesOpt platforms (readProp options "platform") ;;
    Ok (negb (truthy supported)).

(** First half of the body of the inner loop: read one package and decide
    whether it is a candidate. *)
Definition discover (options : JsObject) (searchPath packageConfigPath : string)
  : Outcome (option (string * PackageRevision)) :=
  packagePath <- realpath H (pathJoin H [searchPath; pathDirname H packageConfigPath]) ;;
  packageConfig <- requireJson H
                     (pathJoin H [packagePath; pathBasename H packageConfigPath]) ;;
  manifest <- requireManifest H (pathJoin H [packagePath; "package.json"]) ;;
  skip <- skipPackage options packageConfig (name manifest) ;;
  if skip then Ok None
  else Ok (Some (name manifest, mkRevision packagePath (pkgVersion manifest))).

(** Second half: record the candidate in [results].  [results] starts as
    [{}]: for a name that is a built-in of [Object.prototype],
    [results[name]] is that built-in, which is truthy, has no [path] equal
    to the package's and no [duplicates], so that neither branch runs. *)
Definition recordRevision (pkgName : string) (currentRevision : PackageRevision)
           (results : SearchResults) : SearchResults :=
  match slot pkgName results with
  | Absent => set pkgName (mkPrimary currentRevision (Some [])) results
  | Own found =>
      if negb (String.eqb (path (primary found)) (path currentRevision))
         && match duplicates found with
            | Some ds =>
                forallb (fun d => negb (String.eqb (path d) (path currentRevision))) ds
            | None => false
            end
      then set pkgName
               (mkPrimary (primary found)
                  (option_map (fun ds => ds ++ [currentRevision]) (duplicates found)))
               results
      else results
  | Inherited => results
  end.

Definition processPackage (options : JsObject) (searchPath : string)
           (results : SearchResults) (packageConfigPath : string)
  : Outcome SearchResults :=
  candidate <- discover options searchPath packageConfigPath ;;
  match candidate with
  | Some (pkgName, currentRevision) =>
      Ok (recordRevision pkgName currentRevision results)
  | None => Ok results
  end.

(** The body of the outer loop: one search path. *)
Definition scanSearchPath (options : JsObject) (results : SearchResults)
           (searchPath : string) : Outcome SearchResults :=
  let paths := glob H configPatterns searchPath in
  kept <- uniqueConfigPaths paths ;;
  forEach (processPackage options searchPath) kept results.

(** Searches for modules to link based on given config. *)
Definition findModulesAsync (fuel : nat) (providedOptions : JsObject)
  : Outcome SearchResults :=
  options <- mergeLinkingOptionsAsync fuel providedOptions ;;
  forEach (scanSearchPath options) (searchPathsOf options) [].

(** Verifies the search results by checking whether there are no
    duplicates: the number of names with a non-empty list. *)
Definition verifySearchResults (searchResults : SearchResults) : nat :=
  List.length
    (filter (fun kv => match duplicates (snd kv) with
                       | Some (_ :: _) => true
                       | _ => false
                       end) (entries searchResults)).

(** [{ packageName, packageVersion: revision.version, ...resolvedModule }] *)
Definition describe (packageName : string) (revision : PrimaryRevision)
           (resolvedModule : JVal) : ModuleDescriptor :=
  spreadProps [("packageName", JStr packageName);
               ("packageVersion", JStr (version (primary revision)))]
              (ownProps resolvedModule).

(** The [async] callback mapped over [Object.entries(searchResults)]. *)
Definition resolveOne (platformLinking : PlatformLinking) (options : Obj JVal)
           (entry : string * PrimaryRevision) : Outcome (option ModuleDescriptor) :=
  let '(packageName, revision) := entry in
  match resolveModuleAsync platformLinking with
  | None => Throw (TypeError "platformLinking.resolveModuleAsync is not a function")
  | Some resolveModule =>
      resolvedModule <- resolveModule packageName revision options ;;
      Ok (if truthy resolvedModule
          then Some (describe packageName revision resolvedModule)
          else None)
  end.

Definition packageNameOf (d : ModuleDescriptor) : JVal :=
  orUndef (get "packageName" d).

(** [(a, b) => a.packageName.localeCompare(b.packageName)] *)
Definition byPackageName (a b : ModuleDescriptor) : Outcome Z :=
  match packageNameOf a with
  | JStr s => Ok (localeCompare H s (toString (packageNameOf b)))
  | JUndef | JNull => Throw (TypeError "Cannot read property localeCompare")
  | _ => Throw (TypeError "a.packageName.localeCompare is not a function")
  end.

Definition platformModule (options : Obj JVal) : string :=
  "./platforms/" ++ toString (orUndef (get "platform" options)).

Fixpoint filterBoolean {A : Type} (l : list (option A)) : list A :=
  match l with
  | [] => []
  | Some a :: l' => a :: filterBoolean l'
  | None :: l' => filterBoolean l'
  end.

(** Resolves search results to a list of platform-specific configuration.
    [order] is the order in which the invocations settle. *)
Definition resolveModulesAsync (order : list nat) (searchResults : SearchResults)
           (options : Obj JVal) : Outcome (list ModuleDescriptor) :=
  platformLinking <- requirePlatform H (platformModule options) ;;
  resolved <- promiseAll order
                (map (resolveOne platformLinking options) (entries searchResults)) ;;
  arraySort byPackageName (filterBoolean resolved).

Definition unavailableMessage (options : Obj JVal) : string :=
  chalkRed H ("Generating package list is not available for platform: "
              ++ toString (orUndef (get "platform" options))).

(** The body of the [try] block. *)
Definition tryGenerate (modules : list ModuleDescriptor) (options : Obj JVal)
  : Outcome unit * list Artifact :=
  match requirePlatform H (platformModule options) with
  | Ok platformLinking =>
      match emitPackageListAsync platformLinking with
      | Some emit =>
          emit modules (orUndef (get "target" options))
               (orUndef (get "namespace" options))
      | None =>
          (Throw (TypeError "platformLinking.generatePackageListAsync is not a function"), [])
      end
  | Throw e => (Throw e, [])
  | Diverge => (Diverge, [])
  end.

(** Generates a source file listing all packages to link. *)
Definition generatePackageListAsync (modules : list ModuleDescriptor)
           (options : Obj JVal) (w : World) : Outcome unit * World :=
  let '(outcome, written) := tryGenerate modules options in
  let w' := mkWorld (artifacts w ++ written) (console w) in
  match outcome with
  | Ok tt => (Ok tt, w')
  | Throw _ =>
      (Ok tt, mkWorld (artifacts w') (console w' ++ [unavailableMessage options]))
  | Diverge => (Diverge, w')
  end.

End Autolinking.

(** ** A table-driven host, to run the program on concrete file trees *)

Module Demo.

Fixpoint lookup {V : Type} (k : string) (t : list (string * V)) : option V :=
  match t with
  | [] => None
  | (k', v) :: t' => if String.eqb k k' then Some v else lookup k t'
  end.

(** Splits at the last slash: directory part and file part. *)
Fixpoint splitLast (s : string) : option string * string :=
  match s with
  | EmptyString => (None, EmptyString)
  | String c s' =>
      match splitLast s' with
      | (Some d, f) => (Some (String c d), f)
      | (None, f) =>
          if Ascii.eqb c "/"%char then (Some EmptyString, f)
          else (None, String c f)
      end
  end.

(** Without its trailing slashes, the first character apart. *)
Fixpoint stripSlashes (s : string) : string :=
  match s with
  | EmptyString => EmptyString
  | String c s' =>
      match stripSlashes s' with
      | EmptyString =>
          if Ascii.eqb c "/"%char then EmptyString else String c EmptyString
      | rest => String c rest
      end
  end.

Definition trimmed (s : string) : string :=
  match s with
  | EmptyString => EmptyString
  | String c s' => String c (stripSlashes s')
  end.

(** POSIX [path.dirname] and [path.basename]. *)
Definition dirname (s : string) : string :=
  match splitLast (trimmed s) with
  | (Some EmptyString, _) => "/"
  | (Some "/", _) => "//"
  | (Some d, _) => d
  | (None, _) => "."
  end.

Definition basename (s : string) : string := snd (splitLast (trimmed s)).

(** The segments between the slashes. *)
Fixpoint segments (s cur : string) : list string :=
  match s with
  | EmptyString => [cur]
  | String c s' =>
      if Ascii.eqb c "/"%char then cur :: segments s' EmptyString
      else segments s' (cur ++ String c EmptyString)
  end.

(** Resolves [.] and [..]; [stack] holds the segments kept so far, the
    last one first. *)
Fixpoint normalizeSegments (allowAboveRoot : bool) (segs stack : list string)
  : list string :=
  match segs with
  | [] => rev stack
  | seg :: rest =>
      if String.eqb seg EmptyString || String.eqb seg "." then
        normalizeSegments allowAboveRoot rest stack
      else if String.eqb seg ".." then
        match stack with
        | top :: below =>
            if String.eqb top ".."
            then normalizeSegments allowAboveRoot rest (seg :: stack)
            else normalizeSegments allowAboveRoot rest below
        | [] =>
            normalizeSegments allowAboveRoot rest
              (if allowAboveRoot then [seg] else [])
        end
      else normalizeSegments allowAboveRoot rest (seg :: stack)
  end.

Definition endsWithSlash (s : string) : bool :=
  match splitLast s with
  | (Some _, EmptyString) => true
  | _ => false
  end.

(** POSIX [path.normalize]. *)
Definition normalize (p : string) : string :=
  match p with
  | EmptyString => "."
  | _ =>
      let isAbsolute := String.prefix "/" p in
      let body := joinWith "/" (normalizeSegments (negb isAbsolute) (segments p EmptyString) []) in
      match body with
      | EmptyString =>
          if isAbsolute then "/" else if endsWithSlash p then "./" else "."
      | _ =>
          ((if isAbsolute then "/" else EmptyString) ++ body
           ++ (if endsWithSlash p then "/" else EmptyString))%string
      end
  end.

(** POSIX [path.join]: the non-empty parts, joined and normalised. *)
Definition join (parts : list string) : string :=
  normalize
    (joinWith "/" (filter (fun part => negb (String.eqb part EmptyString)) parts)).

(** POSIX [path.resolve(cwd, p)] in a process whose working directory is
    [base]. *)
Definition resolve (base cwd p : string) : string :=
  let resolved :=
    if String.prefix "/" p then p
    else if String.prefix "/" cwd then (cwd ++ "/" ++ p)%string
    else (base ++ "/" ++ cwd ++ "/" ++ p)%string in
  let isAbsolute := String.prefix "/" resolved in
  let body := joinWith "/" (normalizeSegments (negb isAbsolute)
                              (segments resolved EmptyString) []) in
  if isAbsolute then ("/" ++ body)%string
  else match body with
       | EmptyString => "."
       | _ => body
       end.

(** Code-unit lexicographic comparison as a stand-in for the locale's. *)
Definition lexCompare (a b : string) : Z :=
  match String.compare a b with
  | Lt => (-1)%Z
  | Eq => 0%Z
  | Gt => 1%Z
  end.

(** A comparison that, as a locale's collation does, looks at the letters
    before their case: [abbrev] comes before [JSONStream]. *)
Definition lowerAscii (c : ascii) : ascii :=
  let n := N_of_ascii c in
  if ((65 <=? n) && (n <=? 90))%N then ascii_of_N (n + 32) else c.

Fixpoint lower (s : string) : string :=
  match s with
  | EmptyString => EmptyString
  | String c s' => String (lowerAscii c) (lower s')
  end.

Definition collate (a b : string) : Z := lexCompare (lower a) (lower b).

Definition orMissing {A : Type} (what : string) (o : option A) : Outcome A :=
  match o with
  | Some a => Ok a
  | None => Throw (ModuleNotFound what)
  end.

Definition tableHost (cwd : string)
           (manifestsAbove : list (string * string))
           (globs : list (string * list string))
           (links : list (string * string))
           (jsons : list (string * JVal))
           (manifests : list (string * PackageJson))
           (platforms : list (string * PlatformLinking)) : Host :=
  {| processCwd := cwd;
     pathDirname := dirname;
     pathBasename := basename;
     pathJoin := join;
     pathResolve := resolve cwd;
     findUp := fun _ dir => lookup dir manifestsAbove;
     glob := fun _ dir => match lookup dir globs with Some l => l | None => [] end;
     realpath := fun p => Ok (match lookup p links with Some q => q | None => p end);
     requireJson := fun p => orMissing p (lookup p jsons);
     requireManifest := fun p => orMissing p (lookup p manifests);
     requirePlatform := fun p => orMissing p (lookup p platforms);
     localeCompare := lexCompare;
     stringIsPositive := fun _ => false;
     chalkRed := fun s => s |}.

Definition platformsOf (l : list string) : JVal :=
  JObj [("platforms", JArr (map JStr l))].

(** An iOS-like capability: resolves every package to a pod named after
    it, except [skipped], which it declines, and [broken], on which it
    fails. *)
Definition podResolve (n : string) (_ : PrimaryRevision) (_ : Obj JVal)
  : Outcome JVal :=
  if String.eqb n "skipped" then Ok JNull
  else if String.eqb n "broken" then Throw (HostError "pod lookup failed")
  else Ok (JObj [("podName", JStr n)]).

Definition podLinking : PlatformLinking :=
  {| resolveModuleAsync := Some podResolve;
     emitPackageListAsync := None |}.

(** An Android-like capability that also emits the package list. *)
Definition gradleLinking : PlatformLinking :=
  {| resolveModuleAsync :=
       Some (fun n _ _ => Ok (JObj [("projectName", JStr n)]));
     emitPackageListAsync :=
       Some (fun modules target _ =>
               (Ok tt, [mkArtifact (toString target)
                          (joinWith ";" (map (fun d => toString (orUndef (get "packageName" d)))
                                           modules))])) |}.

(** A project in [/app] with two search paths.  [/app/node_modules] holds
    [foo] (both config files), [bar] and the scoped [@scope/baz];
    [/app/vendor] holds a second copy of [bar] and a link back to [foo]. *)
Definition project : Host :=
  tableHost "/app"
    [("/app", "/app/package.json")]
    [("/app/node_modules",
       ["foo/unimodule.json"; "bar/unimodule.json"; "foo/expo-module.config.json";
        "@scope/baz/expo-module.config.json"]);
     ("/app/vendor", ["bar/unimodule.json"; "foo/expo-module.config.json"])]
    [("/app/vendor/foo", "/app/node_modules/foo")]
    [("/app/package.json",
       JObj [("name", JStr "app");
             ("expo", JObj [("autolinking",
                JObj [("exclude", JArr [JStr "baz"]);
                      ("searchPaths", JArr [JStr "node_modules"]);
                      ("ios", JObj [("searchPaths",
                                     JArr [JStr "node_modules"; JStr "vendor"])])])])]);
     ("/app/node_modules/foo/unimodule.json", JObj []);
     ("/app/node_modules/foo/expo-module.config.json", platformsOf ["ios"; "android"]);
     ("/app/node_modules/bar/unimodule.json", platformsOf ["ios"]);
     ("/app/node_modules/@scope/baz/expo-module.config.json", platformsOf ["ios"]);
     ("/app/vendor/bar/unimodule.json", platformsOf ["ios"])]
    [("/app/node_modules/foo/package.json", mkPackageJson "foo" "1.0.0");
     ("/app/node_modules/bar/package.json", mkPackageJson "bar" "2.0.0");
     ("/app/node_modules/@scope/baz/package.json", mkPackageJson "baz" "0.1.0");
     ("/app/vendor/bar/package.json", mkPackageJson "bar" "2.1.0")]
    [("./platforms/ios", podLinking); ("./platforms/android", gradleLinking)].

Definition iosOptions : Obj JVal := [("platform", JStr "ios")].

(** The same project on a host that collates. *)
Definition collatingProject : Host := withLocaleCompare project collate.

(** Three search paths, each with its own copy of [bar]; no manifest above
    the working directory. *)
Definition threeCopies : Host :=
  tableHost "/work" []
    [("/a", ["bar/unimodule.json"]); ("/b", ["bar/unimodule.json"]);
     ("/c", ["bar/unimodule.json"])]
    []
    [("/a/bar/unimodule.json", platformsOf ["ios"]);
     ("/b/bar/unimodule.json", platformsOf ["ios"]);
     ("/c/bar/unimodule.json", platformsOf ["ios"])]
    [("/a/bar/package.json", mkPackageJson "bar" "1.0.0");
     ("/b/bar/package.json", mkPackageJson "bar" "1.1.0");
     ("/c/bar/package.json", mkPackageJson "bar" "1.2.0")]
    [("./platforms/ios", podLinking)].

Definition threeOptions : Obj JVal :=
  [("platform", JStr "ios");
   ("searchPaths", JArr [JStr "/a"; JStr "/b"; JStr "/c"])].

End Demo.

(** ** Sample data on the demo hosts *)

Definition fooEntry : PrimaryRevision :=
  mkPrimary (mkRevision "/app/node_modules/foo" "1.0.0") (Some []).

Definition barEntry : PrimaryRevision :=
  mkPrimary (mkRevision "/app/node_modules/bar" "2.0.0")
            (Some [mkRevision "/app/vendor/bar" "2.1.0"]).

Definition projectResults : SearchResults :=
  [("foo", fooEntry); ("bar", barEntry)].

Definition projectModules : list ModuleDescriptor :=
  [[("packageName", JStr "bar"); ("packageVersion", JStr "2.0.0");
    ("podName", JStr "bar")];
   [("packageName", JStr "foo"); ("packageVersion", JStr "1.0.0");
    ("podName", JStr "foo")]].

Definition mixedCaseResults : SearchResults :=
  [("JSONStream", mkPrimary (mkRevision "/app/node_modules/JSONStream" "1.3.5") (Some []));
   ("abbrev", mkPrimary (mkRevision "/app/node_modules/abbrev" "1.1.1") (Some []))].

Definition mixedCaseModules : list ModuleDescriptor :=
  [[("packageName", JStr "abbrev"); ("packageVersion", JStr "1.1.1");
    ("podName", JStr "abbrev")];
   [("packageName", JStr "JSONStream"); ("packageVersion", JStr "1.3.5");
    ("podName", JStr "JSONStream")]].

Definition emptyWorld : World := mkWorld [] [].

Definition projectOptions : Obj JVal :=
  [("exclude", JArr [JStr "baz"]);
   ("searchPaths", JArr [JStr "/app/node_modules"; JStr "/app/vendor"]);
   ("ios", JObj [("searchPaths", JArr [JStr "node_modules"; JStr "vendor"])]);
   ("platform", JStr "ios")].

Definition threeResults : SearchResults :=
  [("bar", mkPrimary (mkRevision "/a/bar" "1.0.0")
             (Some [mkRevision "/b/bar" "1.1.0"; mkRevision "/c/bar" "1.2.0"]))].

Definition projectBase : JVal :=
  JObj [("exclude", JArr [JStr "baz"]);
        ("searchPaths", JArr [JStr "node_modules"]);
        ("ios", JObj [("searchPaths", JArr [JStr "node_modules"; JStr "vendor"])])].


(** ** Vocabulary of the statements *)

(** The order on descriptors that [resolveModulesAsync] sorts by: the
    host's string comparison of the [packageName] fields. *)
Definition packageNameBefore (H : Host) (a b : ModuleDescriptor) : Prop :=
  (localeCompare H (toString (packageNameOf a)) (toString (packageNameOf b)) <= 0)%Z.

(** The order of simple (code-unit) lexicographic comparison of the
    [packageName] fields. *)
Definition codeUnitBefore (a b : ModuleDescriptor) : Prop :=
  String.compare (toString (packageNameOf a)) (toString (packageNameOf b)) <> Gt.

(** "The list returned is sorted by simple lexicographic comparison." *)
Definition sortedByCodeUnits (H : Host) (order : list nat)
           (searchResults : SearchResults) (options : Obj JVal) : Prop :=
  forall l,
    resolveModulesAsync H order searchResults options = Ok l ->
    StronglySorted codeUnitBefore l.

(** What the second half of the loop body does with the outcome of the
    first. *)
Definition record (results : SearchResults) (candidate : option (string * PackageRevision))
  : SearchResults :=
  match candidate with
  | Some (pkgName, currentRevision) => recordRevision pkgName currentRevision results
  | None => results
  end.

(** The config paths that the reduce keeps, none when it throws. *)
Definition keptConfigPaths (H : Host) (paths : list string) : list string :=
  match uniqueConfigPaths H paths with
  | Ok kept => kept
  | _ => []
  end.

(** The (search path, config path) pairs in the order the two nested loops
    visit them. *)
Definition scanOrder (H : Host) (searchPaths : list string) : list (string * string) :=
  flat_map (fun searchPath =>
              map (pair searchPath)
                  (keptConfigPaths H (glob H configPatterns searchPath)))
           searchPaths.

(** The reduce of every search path returns. *)
Definition scannable (H : Host) (searchPaths : list string) : Prop :=
  forall searchPath,
    In searchPath searchPaths ->
    exists kept, uniqueConfigPaths H (glob H configPatterns searchPath) = Ok kept.

Definition discovered (H : Host) (options : JsObject) (visit : string * string)
           (candidate : option (string * PackageRevision)) : Prop :=
  discover H options (fst visit) (snd visit) = Ok candidate.

(** The paths recorded as duplicates of an entry. *)
Definition duplicatePaths (r : PrimaryRevision) : list string :=
  match duplicates r with
  | Some ds => map path ds
  | None => []
  end.

(** The shape of every entry of the results: a list of duplicates is
    there, it does not hold the path of the primary, and it holds no path
    twice. *)
Definition tracked (r : PrimaryRevision) : Prop :=
  duplicates r <> None /\
  ~ In (path (primary r)) (duplicatePaths r) /\
  NoDup (duplicatePaths r).

Definition allTracked (results : SearchResults) : Prop :=
  forall n r, get n results = Some r -> tracked r.

(** [later] is what an entry [earlier] may become as the scan goes on: the
    same primary, with possibly more duplicates. *)
Definition grownFrom (earlier later : PrimaryRevision) : Prop :=
  primary later = primary earlier /\
  incl (duplicatePaths earlier) (duplicatePaths later) /\
  (duplicates earlier <> None -> duplicates later <> None).

Definition seenIn (r : PrimaryRevision) (p : string) : Prop :=
  p = path (primary r) \/ In p (duplicatePaths r).

(** The value a source of [Object.assign] gives to the key [k]: its last
    binding, in the order the properties are copied. *)
Fixpoint lastBinding (k : string) (props : Obj JVal) : option JVal :=
  match props with
  | [] => None
  | (k', v) :: rest =>
      match lastBinding k rest with
      | Some v' => Some v'
      | None => if String.eqb k k' then Some v else None
      end
  end.

(** The own property [k] that a layer contributes, if any. *)
Definition copied (k : string) (layer : JVal) : option JVal :=
  lastBinding k (ownProps layer).

Definition orElse {A : Type} (a b : option A) : option A :=
  match a with Some _ => a | None => b end.



(** Every kept path is one of the given paths, filed under its own
    directory, and no directory is filed twice. *)
Definition filed (H : Host) (paths : list string) (acc : Obj string) : Prop :=
  NoDup (keys acc) /\
  forall k v, In (k, v) acc -> pathDirname H v = k /\ In v paths.


(** ** The console output of [verifySearchResults] *)

(** What the report needs from the host besides [process.cwd()]:
    [path.relative] and the colours of [chalk]. *)
Record Reporter : Type := mkReporter {
  pathRelative : string -> string -> string;
  chalkGreen : string -> string;
  chalkMagenta : string -> string;
  chalkCyan : string -> string;
  chalkGray : string -> string
}.

(** A line sent to [console.warn] or to [console.log]. *)
Inductive ConsoleLine : Type :=
| Warn (text : string)
| Log (text : string).

Definition multipleRevisionsSummary : string :=
  "⚠️  Please get rid of multiple revisions as it may introduce some side effects or compatibility issues".

(** The lines printed for one name with duplicates. *)
Definition revisionLines (R : Reporter) (cwd moduleName : string)
           (revision : PrimaryRevision) (dups : list PackageRevision)
  : list ConsoleLine :=
  let relativePath := fun pkg : PackageRevision => pathRelative R cwd (path pkg) in
  Warn ("⚠️  Found multiple revisions of " ++ chalkGreen R moduleName)
  :: Log (" - " ++ chalkMagenta R (relativePath (primary revision))
          ++ " (" ++ chalkCyan R (version (primary revision)) ++ ")")
  :: map (fun duplicate =>
            Log (" - " ++ chalkGray R (relativePath duplicate)
                 ++ " (" ++ chalkGray R (version duplicate) ++ ")"))
         dups.

(** The body of the [for-in] loop: [revision.duplicates?.length] is truthy
    on a non-empty list only. *)
Definition reportRevision (R : Reporter) (cwd : string)
           (state : nat * list ConsoleLine) (entry : string * PrimaryRevision)
  : nat * list ConsoleLine :=
  match duplicates (snd entry) with
  | Some (d :: ds) =>
      (S (fst state),
       snd state ++ revisionLines R cwd (fst entry) (snd entry) (d :: ds))
  | _ => state
  end.

(** [verifySearchResults] with what it prints: the counter it returns and
    the lines, in order. *)
Definition verifySearchResultsReport (R : Reporter) (H : Host)
           (searchResults : SearchResults) : nat * list ConsoleLine :=
  let cwd := processCwd H in
  let '(counter, printed) :=
    fold_left (reportRevision R cwd) (entries searchResults) (0, []) in
  if Nat.ltb 0 counter
  then (counter, printed ++ [Warn multipleRevisionsSummary])
  else (counter, printed).

(** An entry with a non-empty list of duplicates. *)
Definition hasDuplicates (entry : string * PrimaryRevision) : bool :=
  match duplicates (snd entry) with
  | Some (_ :: _) => true
  | _ => false
  end.

(** ** Properties of the JavaScript layer *)

Section ObjFacts.
Context {V : Type}.
Implicit Types (o : Obj V) (k : string) (v : V).

Lemma get_set_same k v o : get k (set k v o) = Some v.
Proof.
  induction o as [|[k' v'] o IH]; simpl.
  - now rewrite String.eqb_refl.
  - destruct (String.eqb k k') eqn:E; simpl; rewrite E; auto.
Qed.

Lemma get_set_other k k' v o : k <> k' -> get k' (set k v o) = get k' o.
Proof.
  intros Hne. induction o as [|[k0 v0] o IH]; simpl.
  - destruct (String.eqb k' k) eqn:E; auto.
    apply String.eqb_eq in E. congruence.
  - destruct (String.eqb k k0) eqn:E; simpl.
    + apply String.eqb_eq in E. subst k0.
      destruct (String.eqb k' k) eqn:E'; auto.
      apply String.eqb_eq in E'. congruence.
    + now rewrite IH.
Qed.

Lemma get_In k v o : get k o = Some v -> In (k, v) o.
Proof.
  induction o as [|[k' v'] o IH]; simpl; [discriminate|].
  destruct (String.eqb k k') eqn:E.
  - apply String.eqb_eq in E. intros [= ->]. subst. now left.
  - auto.
Qed.

Lemma get_None_not_In k o : get k o = None -> forall v, ~ In (k, v) o.
Proof.
  induction o as [|[k' v'] o IH]; simpl; [tauto|].
  destruct (String.eqb k k') eqn:E; [discriminate|].
  intros Hn v [Heq|Hin].
  - inversion Heq. subst. now rewrite String.eqb_refl in E.
  - now apply (IH Hn v).
Qed.

Lemma insertIndexed_perm (x : N * (string * V)) l :
  Permutation (insertIndexed x l) (x :: l).
Proof.
  induction l as [|y l IH]; simpl; auto.
  destruct (fst x <=? fst y)%N; auto.
  rewrite IH. apply perm_swap.
Qed.

Lemma splitIndexed_perm o :
  Permutation (map snd (fst (splitIndexed o)) ++ snd (splitIndexed o)) o.
Proof.
  induction o as [|kv o IH]; simpl; auto.
  destruct (splitIndexed o) as [ix named]. simpl in IH.
  destruct (arrayIndex (fst kv)); simpl.
  - rewrite (Permutation_map snd (insertIndexed_perm _ _)). simpl. auto.
  - rewrite <- Permutation_middle. auto.
Qed.

(** Enumeration visits every own property exactly once. *)
Lemma entries_perm o : Permutation (entries o) o.
Proof.
  unfold entries. pose proof (splitIndexed_perm o) as P.
  destruct (splitIndexed o). exact P.
Qed.

Lemma entries_In kv o : In kv (entries o) <-> In kv o.
Proof.
  split; apply Permutation_in; [|symmetry]; apply entries_perm.
Qed.
End ObjFacts.

Lemma get_spreadProps k target src :
  get k (spreadProps target src) = orElse (lastBinding k src) (get k target).
Proof.
  unfold spreadProps. revert target.
  induction src as [|[k' v] src IH]; intros target; simpl; auto.
  rewrite IH. destruct (lastBinding k src); simpl; auto.
  destruct (String.eqb k k') eqn:E.
  - apply String.eqb_eq in E. subst. apply get_set_same.
  - apply String.eqb_neq in E. simpl. apply get_set_other. congruence.
Qed.

(** *** Properties read through the prototype *)

Lemma slot_cases {V : Type} k (o : Obj V) :
  (exists v, get k o = Some v /\ slot k o = Own v) \/
  (get k o = None /\ inheritedKey k = false /\ slot k o = Absent) \/
  (get k o = None /\ inheritedKey k = true /\ slot k o = Inherited).
Proof.
  unfold slot. destruct (get k o) as [v|]; [left; eauto|].
  destruct (inheritedKey k); auto.
Qed.

Lemma get_Some_keys {V : Type} k (o : Obj V) : get k o <> None <-> In k (keys o).
Proof.
  induction o as [|[k' v'] o IH]; simpl.
  - split; [congruence|tauto].
  - destruct (String.eqb k k') eqn:E.
    + apply String.eqb_eq in E. subst. split; [auto|discriminate].
    + apply String.eqb_neq in E. rewrite IH. split; [auto|].
      intros [Heq|Hin]; [congruence|exact Hin].
Qed.

(** An assignment to a key other than [__proto__] creates or overwrites
    an own property. *)
Lemma writeProp_ordinary t k v :
  k <> "__proto__" -> writeProp t k v = mkObject (set k v (ownOf t)) (protoOf t).
Proof.
  intros Hk. unfold writeProp. destruct (get k (ownOf t)); auto.
  apply String.eqb_neq in Hk. now rewrite Hk.
Qed.

(** So does one to [__proto__] on an object that has that own property. *)
Lemma writeProp_own t k v :
  get k (ownOf t) <> None -> writeProp t k v = mkObject (set k v (ownOf t)) (protoOf t).
Proof.
  intros Hk. unfold writeProp. destruct (get k (ownOf t)); [auto|congruence].
Qed.



(** When no assignment of the source can reach the accessor (the source
    has no [__proto__], or the target has an own one), the prototype stays
    and every key is copied as a property. *)
Lemma assignProps_settled target src :
  (In "__proto__" (keys src) -> get "__proto__" (ownOf target) <> None) ->
  protoOf (assignProps target src) = protoOf target /\
  forall k, get k (ownOf (assignProps target src))
            = orElse (lastBinding k src) (get k (ownOf target)).
Proof.
  unfold assignProps. revert target.
  induction src as [|[k' v] src IH]; intros target Hsafe; simpl; [auto|].
  assert (Hstep : writeProp target k' v
                  = mkObject (set k' v (ownOf target)) (protoOf target)).
  { destruct (string_dec k' "__proto__") as [->|Hne].
    - apply writeProp_own, Hsafe. simpl. auto.
    - now apply writeProp_ordinary. }
  rewrite Hstep. destruct (IH (mkObject (set k' v (ownOf target)) (protoOf target)))
    as [Hproto Hget].
  { simpl. intros Hin. destruct (string_dec k' "__proto__") as [->|Hne].
    - rewrite get_set_same. discriminate.
    - rewrite get_set_other by exact Hne. apply Hsafe. simpl. auto. }
  split; [exact Hproto|]. intros k. rewrite Hget. simpl.
  destruct (lastBinding k src); simpl; auto.
  destruct (String.eqb k k') eqn:E.
  - apply String.eqb_eq in E. subst. apply get_set_same.
  - apply String.eqb_neq in E. apply get_set_other. congruence.
Qed.

Lemma lastBinding_keys k props : lastBinding k props = None <-> ~ In k (keys props).
Proof.
  induction props as [|[k' v'] props IH]; simpl; [tauto|].
  destruct (lastBinding k props) as [w|].
  - split; [discriminate|]. intros Hn. exfalso. apply Hn. right.
    destruct (in_dec string_dec k (keys props)) as [Hin|Hnin]; auto.
    apply (proj2 IH) in Hnin. discriminate.
  - destruct (String.eqb k k') eqn:E.
    + apply String.eqb_eq in E. subst. split; [discriminate|]. intros Hn.
      exfalso. apply Hn. auto.
    + apply String.eqb_neq in E. split; auto. intros _ [Heq|Hin]; [congruence|].
      now apply (proj1 IH).
Qed.

(** Reading a key depends on the own property of that key and on the
    prototype only. *)
Lemma readProp_ext a b k :
  get k (ownOf a) = get k (ownOf b) -> protoOf a = protoOf b ->
  readProp a k = readProp b k.
Proof. unfold readProp. now intros -> ->. Qed.

Lemma readProp_plain o k : readProp (plain o) k = orUndef (get k o).
Proof. unfold readProp, plain. simpl. now destruct (get k o). Qed.

Lemma readProp_own o k v : get k (ownOf o) = Some v -> readProp o k = v.
Proof. unfold readProp. now intros ->. Qed.

Section PromiseFacts.
Context {A : Type}.
Implicit Types (l : list (Outcome A)).

Lemma firstThrow_In l e : firstThrow l = Some e -> In (Throw e) l.
Proof.
  induction l as [|[a|e'|] l IH]; simpl; try discriminate; auto.
  intros [= ->]. now left.
Qed.

Lemma firstThrow_None l : firstThrow l = None <-> forall e, ~ In (Throw e) l.
Proof.
  induction l as [|[a|e'|] l IH]; simpl.
  - tauto.
  - rewrite IH. split; intros Hn e; [intros [Hd|Hin]|]; try discriminate;
      [now apply (Hn e)|intro; apply (Hn e); auto].
  - split; [discriminate|]. intros Hn. exfalso. apply (Hn e'). now left.
  - rewrite IH. split; intros Hn e; [intros [Hd|Hin]|]; try discriminate;
      [now apply (Hn e)|intro; apply (Hn e); auto].
Qed.

Lemma settled_In order l x : In x (settled order l) -> x = Diverge \/ In x l.
Proof.
  unfold settled. rewrite in_map_iff. intros (i & <- & _).
  destruct (nth_in_or_default i l Diverge); auto.
Qed.

(** [Promise.all] rejects as soon as one promise does, with the error of
    one of them, whatever the order in which they settle. *)
Lemma promiseAll_rejects order l :
  (exists e, In (Throw e) l) ->
  exists e, In (Throw e) l /\ promiseAll order l = Throw e.
Proof.
  intros [e0 Hin]. unfold promiseAll.
  destruct (firstThrow (settled order l ++ l)) as [e|] eqn:E.
  - exists e. split; auto. apply firstThrow_In in E.
    apply in_app_or in E as [E|E]; auto.
    apply settled_In in E as [E|E]; [discriminate|auto].
  - exfalso. rewrite firstThrow_None in E. apply (E e0), in_or_app. auto.
Qed.

(** When it fulfils, the completion order has no say in the result. *)
Lemma promiseAll_order order order' l r :
  promiseAll order l = Ok r -> promiseAll order' l = Ok r.
Proof.
  unfold promiseAll.
  destruct (firstThrow (settled order l ++ l)) eqn:E; [discriminate|].
  intros Hc. rewrite firstThrow_None in E.
  destruct (firstThrow (settled order' l ++ l)) as [e|] eqn:E'; auto.
  apply firstThrow_In in E'. exfalso. apply (E e), in_or_app. right.
  apply in_app_or in E' as [E'|E']; auto.
  apply settled_In in E' as [E'|E']; [discriminate|auto].
Qed.
End PromiseFacts.

Section SortFacts.
Context {A : Type} (cmp : A -> A -> Outcome Z) (le : A -> A -> Prop).

(** The comparator decides [le], and [le] is a total preorder as far as
    the comparator is concerned. *)
Hypothesis cmp_le : forall a b c, cmp a b = Ok c -> (c <= 0)%Z -> le a b.
Hypothesis cmp_gt : forall a b c, cmp a b = Ok c -> (0 < c)%Z -> le b a.
Hypothesis le_trans : forall a b c, le a b -> le b c -> le a c.

Lemma insertSorted_sorted x l r :
  StronglySorted le l -> insertSorted cmp x l = Ok r ->
  StronglySorted le r /\ Permutation r (x :: l).
Proof.
  revert r. induction l as [|y l IH]; simpl; intros r Hs.
  - intros [= <-]. split; auto. constructor; auto.
  - destruct (cmp x y) as [c| |] eqn:Ec; simpl; try discriminate.
    destruct (Z.leb_spec c 0).
    + intros [= <-]. split; auto.
      constructor; auto. constructor.
      * eapply cmp_le; eauto.
      * apply StronglySorted_inv in Hs as [_ Hall].
        eapply Forall_impl; [|exact Hall]. intros z Hz.
        eapply le_trans; [eapply cmp_le|]; eauto.
    + destruct (insertSorted cmp x l) as [r'| |] eqn:Er; simpl; try discriminate.
      intros [= <-]. apply StronglySorted_inv in Hs as [Hs Hall].
      destruct (IH r' Hs eq_refl) as [Hs' Hp]. split.
      * constructor; auto.
        eapply Permutation_Forall; [symmetry; exact Hp|].
        constructor; auto. eapply cmp_gt; eauto.
      * rewrite Hp. apply perm_swap.
Qed.

Lemma arraySort_sorted l r :
  arraySort cmp l = Ok r -> StronglySorted le r /\ Permutation r l.
Proof.
  revert r. induction l as [|x l IH]; simpl; intros r.
  - intros [= <-]. split; auto. constructor.
  - destruct (arraySort cmp l) as [r'| |]; simpl; try discriminate.
    destruct (IH r' eq_refl) as [Hs Hp]. intros Hi.
    destruct (insertSorted_sorted _ _ _ Hs Hi) as [Hs' Hp']. split; auto.
    rewrite Hp'. auto.
Qed.
End SortFacts.

Section SortTotal.
Context {A : Type} (cmp : A -> A -> Outcome Z) (good : A -> Prop).
Hypothesis cmp_ok : forall a b, good a -> exists c, cmp a b = Ok c.

Lemma insertSorted_total x l :
  good x -> exists r, insertSorted cmp x l = Ok r /\ Permutation r (x :: l).
Proof.
  intros Hx. induction l as [|y l (r & Hr & Hp)]; simpl; eauto.
  destruct (cmp_ok x y Hx) as [c ->]. simpl.
  destruct (c <=? 0)%Z; eauto. rewrite Hr. simpl.
  eexists. split; eauto. rewrite Hp. apply perm_swap.
Qed.

Lemma arraySort_total l :
  Forall good l -> exists r, arraySort cmp l = Ok r /\ Permutation r l.
Proof.
  induction 1 as [|x l Hx Hl (r & Hr & Hp)]; simpl; eauto.
  rewrite Hr. simpl. destruct (insertSorted_total x r Hx) as (r' & Hr' & Hp').
  exists r'. split; auto. rewrite Hp'. auto.
Qed.
End SortTotal.

(** ** The claims *)

Lemma byPackageName_value H a b c :
  byPackageName H a b = Ok c ->
  c = localeCompare H (toString (packageNameOf a)) (toString (packageNameOf b)).
Proof.
  unfold byPackageName. destruct (packageNameOf a); try discriminate.
  simpl. now intros [= <-].
Qed.

Lemma collect_all_ok {A : Type} (l : list (Outcome A)) :
  (forall x, In x l -> exists a, x = Ok a) ->
  exists r, collect l = Ok r /\ forall a, In a r -> In (Ok a) l.
Proof.
  induction l as [|x l IH]; simpl; intros Hok.
  - exists []. split; auto.
  - destruct (Hok x (or_introl eq_refl)) as [a ->].
    destruct IH as (r & Hr & Hin); [intros y Hy; apply Hok; auto|].
    rewrite Hr. simpl. exists (a :: r). split; auto.
    intros b [->|Hb]; auto.
Qed.

Lemma promiseAll_all_ok {A : Type} order (l : list (Outcome A)) :
  (forall x, In x l -> exists a, x = Ok a) ->
  exists r, promiseAll order l = Ok r /\ forall a, In a r -> In (Ok a) l.
Proof.
  intros Hok. unfold promiseAll.
  destruct (firstThrow (settled order l ++ l)) as [e|] eqn:E.
  - apply firstThrow_In in E. apply in_app_or in E as [E|E].
    + apply settled_In in E as [E|E]; [discriminate|].
      destruct (Hok _ E); discriminate.
    + destruct (Hok _ E); discriminate.
  - now apply collect_all_ok.
Qed.

Lemma filterBoolean_In {A : Type} (l : list (option A)) a :
  In a (filterBoolean l) -> In (Some a) l.
Proof.
  induction l as [|[b|] l IH]; simpl; auto.
  intros [->|Hin]; auto.
Qed.

Lemma describe_packageName n revision resolved :
  packageNameOf (describe n revision resolved)
  = match copied "packageName" resolved with
    | Some v => v
    | None => JStr n
    end.
Proof.
  unfold packageNameOf, describe, copied. rewrite get_spreadProps.
  destruct (lastBinding "packageName" (ownProps resolved)); reflexivity.
Qed.

(** C1, as amended. Whenever [resolveModulesAsync] returns a list, the list
    is in ascending order of the [packageName] fields under the host's
    [localeCompare] (a total preorder), for every input mapping in every order,
    and the same list is returned for every order in which the platform
    invocations settle.  It does return a list when the platform module
    exports a resolver that fulfils for every package with a value that
    leaves [packageName] a string. *)
Theorem resolveModulesAsync_sorted :
  forall (H : Host) (order : list nat) (searchResults : SearchResults)
         (options : Obj JVal),
    (forall a b, (0 < localeCompare H a b)%Z -> (localeCompare H b a <= 0)%Z) ->
    (forall a b c, (localeCompare H a b <= 0)%Z -> (localeCompare H b c <= 0)%Z ->
                   (localeCompare H a c <= 0)%Z) ->
    (forall l,
        resolveModulesAsync H order searchResults options = Ok l ->
        StronglySorted (packageNameBefore H) l /\
        forall order', resolveModulesAsync H order' searchResults options = Ok l) /\
    (forall platformLinking resolveModule,
        requirePlatform H (platformModule options) = Ok platformLinking ->
        resolveModuleAsync platformLinking = Some resolveModule ->
        (forall packageName revision,
            In (packageName, revision) searchResults ->
            exists resolved,
              resolveModule packageName revision options = Ok resolved /\
              (copied "packageName" resolved = None \/
               exists s, copied "packageName" resolved = Some (JStr s))) ->
        exists l, resolveModulesAsync H order searchResults options = Ok l).
Proof.
  intros H order sr options Htot Htrans. split.
  - intros l. unfold resolveModulesAsync.
    destruct (requirePlatform H (platformModule options)) as [pl| |]; simpl;
      try discriminate.
    destruct (promiseAll order (map (resolveOne pl options) (entries sr)))
      as [resolved| |] eqn:Ep; simpl; try discriminate.
    intros Hsort. split.
    + eapply (arraySort_sorted (byPackageName H) (packageNameBefore H)); eauto.
      * intros a b c Hc Hle. apply byPackageName_value in Hc.
        unfold packageNameBefore. lia.
      * intros a b c Hc Hlt. apply byPackageName_value in Hc.
        unfold packageNameBefore. apply Htot. lia.
      * unfold packageNameBefore. eauto.
    + intros order'. rewrite (promiseAll_order order order' _ _ Ep). exact Hsort.
  - intros pl f Hpl Hf Hall. unfold resolveModulesAsync. rewrite Hpl. cbn [bind].
    assert (Hone : forall entry, In entry (entries sr) ->
              exists d, resolveOne pl options entry = Ok d /\
                        forall x, d = Some x -> exists s, packageNameOf x = JStr s).
    { intros [n rev] Hin. apply (proj1 (entries_In _ _)) in Hin.
      destruct (Hall n rev Hin) as (v & Hv & Hname).
      unfold resolveOne. rewrite Hf, Hv. cbn [bind]. eexists. split; [reflexivity|].
      destruct (truthy v); [|discriminate]. intros x [= <-].
      rewrite describe_packageName.
      destruct Hname as [-> | [s ->]]; eauto. }
    destruct (promiseAll_all_ok order (map (resolveOne pl options) (entries sr)))
      as (r & -> & Hr).
    { intros x Hx. apply in_map_iff in Hx as (entry & <- & Hin).
      destruct (Hone entry Hin) as (d & -> & _). eauto. }
    cbn [bind].
    destruct (arraySort_total (byPackageName H)
                (fun d => exists s, packageNameOf d = JStr s))
      with (l := filterBoolean r) as (l & -> & _); eauto.
    + intros a b [s Hs]. unfold byPackageName. rewrite Hs. eauto.
    + apply Forall_forall. intros d Hd. apply filterBoolean_In in Hd.
      apply Hr in Hd. apply in_map_iff in Hd as (entry & Hres & Hin).
      destruct (Hone entry Hin) as (d' & Hd' & Hgood).
      rewrite Hd' in Hres. inversion Hres. subst d'. now apply Hgood.
Qed.

(** C1, as stated, fails on a host whose [localeCompare] collates: the list
    comes back as [abbrev], [JSONStream], and simple lexicographic comparison
    puts [JSONStream] (capital J) first. *)
Lemma resolveModulesAsync_not_sortedByCodeUnits :
  ~ sortedByCodeUnits Demo.collatingProject [0; 1]%nat mixedCaseResults Demo.iosOptions.
Proof.
  intros Hsorted.
  assert (Hrun : resolveModulesAsync Demo.collatingProject [0; 1]%nat
                   mixedCaseResults Demo.iosOptions = Ok mixedCaseModules)
    by (vm_compute; reflexivity).
  apply Hsorted in Hrun. apply StronglySorted_inv in Hrun as [_ Hhead].
  apply Forall_inv in Hhead. apply Hhead. vm_compute. reflexivity.
Qed.

(** C6. When one platform invocation fails, [resolveModulesAsync] fails
    with the error of a failed invocation, whatever the other invocations
    do and in whatever order they settle. *)
Theorem resolveModulesAsync_fails_fast :
  forall (H : Host) (order : list nat) (searchResults : SearchResults)
         (options : Obj JVal) (platformLinking : PlatformLinking)
         (resolveModule : string -> PrimaryRevision -> Obj JVal -> Outcome JVal),
    requirePlatform H (platformModule options) = Ok platformLinking ->
    resolveModuleAsync platformLinking = Some resolveModule ->
    (exists packageName revision,
        In (packageName, revision) searchResults /\
        isThrow (resolveModule packageName revision options) = true) ->
    exists e packageName revision,
      In (packageName, revision) searchResults /\
      resolveModule packageName revision options = Throw e /\
      resolveModulesAsync H order searchResults options = Throw e.
Proof.
  intros H order sr options pl f Hpl Hf (n & rev & Hin & Hthrow).
  unfold resolveModulesAsync. rewrite Hpl. cbn [bind].
  destruct (f n rev options) as [|e0|] eqn:E0; try discriminate.
  destruct (promiseAll_rejects order (map (resolveOne pl options) (entries sr)))
    as (e & Hine & Hall).
  { exists e0. apply in_map_iff. exists (n, rev). split.
    - unfold resolveOne. rewrite Hf, E0. reflexivity.
    - now apply entries_In. }
  apply in_map_iff in Hine as ([n' rev'] & Hres & Hin').
  exists e, n', rev'. apply (proj1 (entries_In _ _)) in Hin'. split; auto.
  rewrite Hall. cbn [bind]. split; auto.
  unfold resolveOne in Hres. rewrite Hf in Hres.
  destruct (f n' rev' options); simpl in Hres; congruence.
Qed.

(** C7. For a platform without an emitter (no platform module, or a module
    that exports no generator) [generatePackageListAsync] returns normally,
    writes no artifact, and reports one diagnostic on the console. *)
Theorem generatePackageListAsync_unsupported_platform :
  forall (H : Host) (modules : list ModuleDescriptor) (options : Obj JVal) (w : World),
    (isThrow (requirePlatform H (platformModule options)) = true \/
     exists platformLinking,
       requirePlatform H (platformModule options) = Ok platformLinking /\
       emitPackageListAsync platformLinking = None) ->
    generatePackageListAsync H modules options w
    = (Ok tt, mkWorld (artifacts w) (console w ++ [unavailableMessage H options])).
Proof.
  intros H modules options w Hno. unfold generatePackageListAsync, tryGenerate.
  destruct Hno as [Hthrow | (pl & Hpl & Hemit)].
  - destruct (requirePlatform H (platformModule options)); try discriminate.
    simpl. now rewrite app_nil_r.
  - rewrite Hpl, Hemit. simpl. now rewrite app_nil_r.
Qed.

Lemma findDefaultPathsLoop_acc H fuel dir acc :
  findDefaultPathsLoop H fuel dir acc
  = (r <- findDefaultPathsLoop H fuel dir [] ;; Ok (acc ++ r)).
Proof.
  revert dir acc. induction fuel as [|fuel IH]; intros dir acc; simpl; auto.
  destruct (findUp H "package.json" dir) as [p|]; simpl.
  - rewrite IH. rewrite (IH _ [_]).
    destruct (findDefaultPathsLoop H fuel _ []); simpl; auto.
    now rewrite <- app_assoc.
  - now rewrite app_nil_r.
Qed.

Lemma findDefaultPathsLoop_more_fuel H fuel fuel' dir acc l :
  findDefaultPathsLoop H fuel dir acc = Ok l -> fuel <= fuel' ->
  findDefaultPathsLoop H fuel' dir acc = Ok l.
Proof.
  revert fuel' dir acc. induction fuel as [|fuel IH]; intros fuel' dir acc; simpl.
  - discriminate.
  - intros Hrun Hle. destruct fuel' as [|fuel']; [lia|]. simpl.
    destruct (findUp H "package.json" dir); auto.
    apply IH; auto. lia.
Qed.

(** *** The walk up to the default search paths *)

(** Going up from [dir], manifest by manifest, a directory is reached that
    holds the manifest found from it: its parent's parent is itself, as for
    a manifest in the root directory. *)
Inductive loopsFrom (H : Host) : string -> Prop :=
| loops_here : forall dir pkgJsonPath,
    findUp H "package.json" dir = Some pkgJsonPath ->
    pathDirname H (pathDirname H pkgJsonPath) = dir ->
    loopsFrom H dir
| loops_above : forall dir pkgJsonPath,
    findUp H "package.json" dir = Some pkgJsonPath ->
    loopsFrom H (pathDirname H (pathDirname H pkgJsonPath)) ->
    loopsFrom H dir.

Lemma findDefaultPathsLoop_stuck H dir pkgJsonPath :
  findUp H "package.json" dir = Some pkgJsonPath ->
  pathDirname H (pathDirname H pkgJsonPath) = dir ->
  forall fuel paths, findDefaultPathsLoop H fuel dir paths = Diverge.
Proof.
  intros Hup Hdir fuel. induction fuel as [|fuel IH]; intros paths; simpl; auto.
  rewrite Hup, Hdir. apply IH.
Qed.

Lemma findDefaultPathsLoop_loops H dir :
  loopsFrom H dir ->
  forall fuel paths, findDefaultPathsLoop H fuel dir paths = Diverge.
Proof.
  induction 1 as [dir p Hup Hdir|dir p Hup _ IH]; intros fuel paths.
  - now apply (findDefaultPathsLoop_stuck H dir p).
  - destruct fuel as [|fuel]; simpl; auto. rewrite Hup. apply IH.
Qed.

(** A project in [/app] on a file system with a manifest in the root. *)
Definition rootManifestHost : Host :=
  Demo.tableHost "/app" [("/app", "/app/package.json"); ("/", "/package.json")]
                 [] [] [] [] [].

Lemma rootManifestHost_loops : loopsFrom rootManifestHost "/app".
Proof.
  apply (loops_above rootManifestHost "/app" "/app/package.json"); [reflexivity|].
  apply (loops_here rootManifestHost _ "/package.json"); reflexivity.
Qed.

(** C8. For the project in [/app] under a root directory that holds a
    [package.json], [resolveSearchPathsAsync] resolves the explicit paths it
    is given, but with [null], [undefined] or an empty list it returns no
    list at all, however long it runs: the walk up finds [/package.json]
    from [/] again and again.  Without the manifest in the root the same
    call returns the default list. *)
Theorem resolveSearchPathsAsync_root_manifest_hangs :
  forall fuel : nat,
    resolveSearchPathsAsync rootManifestHost fuel (JArr [JStr "node_modules"]) "/app"
    = Ok ["/app/node_modules"] /\
    resolveSearchPathsAsync rootManifestHost fuel JNull "/app" = Diverge /\
    resolveSearchPathsAsync rootManifestHost fuel JUndef "/app" = Diverge /\
    resolveSearchPathsAsync rootManifestHost fuel (JArr []) "/app" = Diverge /\
    resolveSearchPathsAsync Demo.project (2 + fuel) JNull "/app"
    = Ok ["/app/node_modules"].
Proof.
  intros fuel.
  pose proof (findDefaultPathsLoop_loops _ _ rootManifestHost_loops fuel []) as Hloop.
  repeat split; try exact Hloop; reflexivity.
Qed.

(** X16. A non-empty list of explicit paths is resolved entry by entry
    against [cwd], in the given order; an empty list, [null] or [undefined]
    gives what the walk up from [cwd] gives, which holds one [node_modules]
    per manifest found and is empty when none is found.  The fuel only
    bounds the walk up: more of it gives the same list. *)
Theorem resolveSearchPathsAsync_explicit_or_default :
  forall (H : Host) (fuel : nat) (cwd : string),
    (forall p ps,
        resolveSearchPathsAsync H fuel (JArr (map JStr (p :: ps))) cwd
        = Ok (map (pathResolve H cwd) (p :: ps))) /\
    resolveSearchPathsAsync H fuel (JArr []) cwd = findDefaultPathsAsync H fuel cwd /\
    resolveSearchPathsAsync H fuel JNull cwd = findDefaultPathsAsync H fuel cwd /\
    resolveSearchPathsAsync H fuel JUndef cwd = findDefaultPathsAsync H fuel cwd /\
    (findUp H "package.json" cwd = None ->
     findDefaultPathsAsync H (S fuel) cwd = Ok []) /\
    (forall pkgJsonPath,
        findUp H "package.json" cwd = Some pkgJsonPath ->
        findDefaultPathsAsync H (S fuel) cwd
        = (outer <- findDefaultPathsAsync H fuel
                      (pathDirname H (pathDirname H pkgJsonPath)) ;;
           Ok (pathJoin H [pkgJsonPath; ".."; "node_modules"] :: outer))) /\
    (forall fuel' l,
        findDefaultPathsAsync H fuel cwd = Ok l -> fuel <= fuel' ->
        findDefaultPathsAsync H fuel' cwd = Ok l).
Proof.
  intros H fuel cwd. repeat split.
  - intros p ps. unfold resolveSearchPathsAsync.
    replace (truthy (JArr (map JStr (p :: ps))) &&
             greaterThanZero H (getPropOpt (JArr (map JStr (p :: ps))) "length"))
      with true by reflexivity.
    generalize (p :: ps). intros l. induction l as [|q l IH]; simpl; auto.
    now rewrite IH.
  - unfold findDefaultPathsAsync. simpl. now intros ->.
  - intros p Hp. unfold findDefaultPathsAsync. simpl. rewrite Hp.
    now rewrite findDefaultPathsLoop_acc.
  - intros fuel' l. apply findDefaultPathsLoop_more_fuel.
Qed.

(** C10. A package whose config file parses to an object without a
    [platforms] field is skipped without error, exactly as one whose
    [platforms] array lacks the requested platform: nothing is recorded and
    the scan goes on with the results unchanged. *)
Theorem findModulesAsync_skips_missing_platforms :
  forall (H : Host) (options : JsObject) (searchPath packageConfigPath packagePath : string)
         (fields : Obj JVal) (manifest : PackageJson) (excluded : JVal)
         (results : SearchResults),
    realpath H (pathJoin H [searchPath; pathDirname H packageConfigPath]) = Ok packagePath ->
    requireJson H (pathJoin H [packagePath; pathBasename H packageConfigPath])
    = Ok (JObj fields) ->
    requireManifest H (pathJoin H [packagePath; "package.json"]) = Ok manifest ->
    includesOpt (readProp options "exclude") (JStr (name manifest)) = Ok excluded ->
    (get "platforms" fields = None \/
     exists declared,
       get "platforms" fields = Some (JArr declared) /\
       existsb (sameValueZero (readProp options "platform")) declared = false) ->
    discover H options searchPath packageConfigPath = Ok None /\
    processPackage H options searchPath results packageConfigPath = Ok results.
Proof.
  intros H options sp p pp fields manifest excluded results Hreal Hcfg Hman Hex Hplat.
  assert (Hd : discover H options sp p = Ok None).
  { unfold discover. rewrite Hreal. cbn [bind]. rewrite Hcfg. cbn [bind].
    rewrite Hman. cbn [bind]. unfold skipPackage. rewrite Hex. cbn [bind].
    destruct (truthy excluded); auto.
    destruct Hplat as [Hnone | (declared & Hsome & Hnot)]; cbn [getProp bind].
    - rewrite Hnone. reflexivity.
    - rewrite Hsome. cbn [orUndef includesOpt bind]. rewrite Hnot. reflexivity. }
  split; auto. unfold processPackage. now rewrite Hd.
Qed.

(** *** The scan as a fold over the candidates *)

Section ScanFacts.
Variable H : Host.
Variable options : JsObject.

Lemma forEach_processPackage searchPath configPaths results0 results :
  forEach (processPackage H options searchPath) configPaths results0 = Ok results ->
  exists candidates,
    Forall2 (discovered H options) (map (pair searchPath) configPaths) candidates /\
    results = fold_left record candidates results0.
Proof.
  revert results0. induction configPaths as [|p ps IH]; simpl; intros r0.
  - intros [= <-]. exists []. split; auto.
  - unfold processPackage at 1.
    destruct (discover H options searchPath p) as [c| |] eqn:Ed; simpl;
      try discriminate.
    intros Hrest.
    assert (Hstep : forEach (processPackage H options searchPath) ps (record r0 c)
                    = Ok results).
    { destruct c as [[n rev]|]; exact Hrest. }
    destruct (IH _ Hstep) as (cs & Hall & ->).
    exists (c :: cs). split; [constructor; auto | reflexivity].
Qed.

Lemma forEach_scanSearchPath searchPaths results0 results :
  forEach (scanSearchPath H options) searchPaths results0 = Ok results ->
  exists candidates,
    Forall2 (discovered H options) (scanOrder H searchPaths) candidates /\
    results = fold_left record candidates results0.
Proof.
  revert results0. induction searchPaths as [|sp sps IH]; simpl; intros r0.
  - intros [= <-]. exists []. split; auto.
  - unfold scanSearchPath at 1. unfold keptConfigPaths.
    destruct (uniqueConfigPaths H (glob H configPatterns sp)) as [kept| |];
      cbn [bind]; try discriminate.
    destruct (forEach (processPackage H options sp) kept r0) as [r1| |] eqn:E1;
      cbn [bind]; try discriminate.
    intros Hrest. apply forEach_processPackage in E1 as (cs1 & Hall1 & ->).
    destruct (IH _ Hrest) as (cs2 & Hall2 & ->).
    exists (cs1 ++ cs2). split.
    + now apply Forall2_app.
    + now rewrite fold_left_app.
Qed.

(** A candidate is a package that is not excluded. *)
Lemma discover_not_excluded searchPath configPath pkgName revision :
  discover H options searchPath configPath = Ok (Some (pkgName, revision)) ->
  exists excluded,
    includesOpt (readProp options "exclude") (JStr pkgName) = Ok excluded /\
    truthy excluded = false.
Proof.
  unfold discover.
  destruct (realpath H _) as [pp| |]; simpl; try discriminate.
  destruct (requireJson H _) as [cfg| |]; simpl; try discriminate.
  destruct (requireManifest H _) as [m| |]; simpl; try discriminate.
  unfold skipPackage.
  destruct (includesOpt _ (JStr (name m))) as [ex| |] eqn:Ex; simpl; try discriminate.
  destruct (truthy ex) eqn:Et; simpl; [discriminate|].
  destruct (getProp cfg "platforms") as [pf| |]; simpl; try discriminate.
  destruct (includesOpt pf _) as [s| |]; simpl; try discriminate.
  destruct (negb (truthy s)); try discriminate.
  intros [= <- _]. eauto.
Qed.
End ScanFacts.

Lemma findModulesAsync_unfold H fuel providedOptions results :
  findModulesAsync H fuel providedOptions = Ok results ->
  exists options candidates,
    mergeLinkingOptionsAsync H fuel providedOptions = Ok options /\
    Forall2 (discovered H options) (scanOrder H (searchPathsOf options)) candidates /\
    results = fold_left record candidates [].
Proof.
  unfold findModulesAsync.
  destruct (mergeLinkingOptionsAsync H fuel providedOptions) as [options| |]; simpl;
    try discriminate.
  intros Hscan. apply forEach_scanSearchPath in Hscan as (cs & Hall & ->).
  eauto.
Qed.

(** *** The duplicate tracker *)

Lemma notInPaths_forallb q ds :
  forallb (fun d => negb (String.eqb (path d) q)) ds = true <-> ~ In q (map path ds).
Proof.
  induction ds as [|d ds IH]; simpl; [tauto|].
  rewrite andb_true_iff, IH, negb_true_iff, String.eqb_neq. intuition congruence.
Qed.

(** The four things [recordRevision] can do: file a new name, add a
    duplicate, leave a known path alone, and pass over a name that the empty
    object inherits. *)
Lemma recordRevision_cases n rev results :
  (get n results = None /\ inheritedKey n = false /\
   recordRevision n rev results = set n (mkPrimary rev (Some [])) results) \/
  (exists found ds,
      get n results = Some found /\ duplicates found = Some ds /\
      path (primary found) <> path rev /\ ~ In (path rev) (map path ds) /\
      recordRevision n rev results
      = set n (mkPrimary (primary found) (Some (ds ++ [rev]))) results) \/
  (exists found,
      get n results = Some found /\
      (path (primary found) = path rev \/ In (path rev) (duplicatePaths found) \/
       duplicates found = None) /\
      recordRevision n rev results = results) \/
  (get n results = None /\ inheritedKey n = true /\
   recordRevision n rev results = results).
Proof.
  unfold recordRevision, duplicatePaths.
  destruct (slot_cases n results)
    as [(found & Eg & ->) | [(Eg & Ei & ->) | (Eg & Ei & ->)]]; auto.
  2:{ right. right. right. auto. }
  right. destruct (String.eqb (path (primary found)) (path rev)) eqn:Ep; simpl.
  - right. left. exists found. apply String.eqb_eq in Ep. auto.
  - apply String.eqb_neq in Ep. destruct (duplicates found) as [ds|] eqn:Ed.
    + destruct (forallb _ ds) eqn:Ef.
      * left. exists found, ds. apply (proj1 (notInPaths_forallb _ _)) in Ef. simpl. auto.
      * right. left. exists found. repeat split; auto. right. left.
        rewrite Ed.
        destruct (in_dec string_dec (path rev) (map path ds)) as [Hin|Hn]; auto.
        apply (proj2 (notInPaths_forallb _ _)) in Hn. congruence.
    + right. left. exists found. auto.
Qed.

Lemma allTracked_record results c : allTracked results -> allTracked (record results c).
Proof.
  intros Hall. destruct c as [[n rev]|]; simpl; auto.
  destruct (recordRevision_cases n rev results)
    as [(Hnone & _ & ->) | [(found & ds & Hget & Hds & Hp & Hnin & ->)
       | [(found & _ & _ & ->) | (_ & _ & ->)]]];
    auto.
  - intros k r. destruct (string_dec n k) as [<-|Hne].
    + rewrite get_set_same. intros [= <-]. repeat split; simpl; [discriminate|tauto|constructor].
    + rewrite get_set_other by auto. apply Hall.
  - intros k r. destruct (string_dec n k) as [<-|Hne].
    + rewrite get_set_same. intros [= <-].
      destruct (Hall _ _ Hget) as (_ & Hnp & Hnd). unfold duplicatePaths in *.
      rewrite Hds in *. unfold tracked, duplicatePaths. simpl.
      rewrite map_app. simpl. repeat split.
      * discriminate.
      * rewrite in_app_iff. simpl. intuition congruence.
      * apply NoDup_app; auto.
        -- constructor; [simpl; tauto|constructor].
        -- intros q Hq [<-|[]]. contradiction.
    + rewrite get_set_other by auto. apply Hall.
Qed.

Lemma allTracked_fold candidates results :
  allTracked results -> allTracked (fold_left record candidates results).
Proof.
  revert results. induction candidates as [|c cs IH]; simpl; auto.
  intros results Hall. apply IH, allTracked_record, Hall.
Qed.

Lemma allTracked_empty : allTracked [].
Proof. intros n r. discriminate. Qed.

Section Forall2Facts.
Context {A B : Type} (R : A -> B -> Prop).

Lemma Forall2_In_r l l' y :
  Forall2 R l l' -> In y l' -> exists x, In x l /\ R x y.
Proof.
  induction 1 as [|x y' l l' Hxy _ IH]; simpl; [tauto|].
  intros [->|Hin]; [eauto|]. destruct (IH Hin) as (x' & ? & ?). eauto.
Qed.

Lemma Forall2_In_l l l' x :
  Forall2 R l l' -> In x l -> exists y, In y l' /\ R x y.
Proof.
  induction 1 as [|x' y l l' Hxy _ IH]; simpl; [tauto|].
  intros [->|Hin]; [eauto|]. destruct (IH Hin) as (y' & ? & ?). eauto.
Qed.
End Forall2Facts.

(** C4. In the results of [findModulesAsync] every entry has a list of
    duplicates that holds neither the path of its primary nor any path
    twice; and recording a revision whose path is already there, as the
    primary or as a duplicate, changes nothing. *)
Theorem findModulesAsync_duplicates_distinct :
  forall (H : Host) (fuel : nat) (providedOptions : JsObject) (results : SearchResults),
    findModulesAsync H fuel providedOptions = Ok results ->
    (forall n r,
        get n results = Some r ->
        exists ds,
          duplicates r = Some ds /\
          ~ In (path (primary r)) (map path ds) /\
          NoDup (map path ds)) /\
    (forall (others : SearchResults) n revision found,
        get n others = Some found ->
        path revision = path (primary found) \/ In (path revision) (duplicatePaths found) ->
        recordRevision n revision others = others).
Proof.
  intros H fuel provided results Hfind. split.
  - apply findModulesAsync_unfold in Hfind as (options & cs & _ & _ & ->).
    intros n r Hget.
    destruct (allTracked_fold cs [] allTracked_empty n r Hget) as (Hsome & Hnp & Hnd).
    unfold duplicatePaths in *. destruct (duplicates r) as [ds|]; [eauto|congruence].
  - intros others n rev found Hget Hseen.
    destruct (recordRevision_cases n rev others)
      as [(Hnone & _) | [(f & ds & Hg & Hds & Hp & Hnin & _)
         | [(_ & _ & _ & ->) | (_ & _ & ->)]]]; auto.
    + congruence.
    + exfalso. assert (f = found) by congruence. subst f.
      unfold duplicatePaths in Hseen. rewrite Hds in Hseen.
      destruct Hseen; [congruence|contradiction].
Qed.

Lemma record_get_other n results c :
  (forall rev, c <> Some (n, rev)) -> get n (record results c) = get n results.
Proof.
  intros Hc. destruct c as [[k rev]|]; simpl; auto.
  assert (k <> n) by (intros ->; now apply (Hc rev)).
  destruct (recordRevision_cases k rev results)
    as [(_ & _ & ->) | [(f & ds & _ & _ & _ & _ & ->)
       | [(_ & _ & _ & ->) | (_ & _ & ->)]]]; auto;
    now apply get_set_other.
Qed.

Lemma fold_get_other n candidates results :
  (forall rev, ~ In (Some (n, rev)) candidates) ->
  get n (fold_left record candidates results) = get n results.
Proof.
  revert results. induction candidates as [|c cs IH]; simpl; intros results Hn; auto.
  rewrite IH by (intros rev Hin; apply (Hn rev); auto).
  apply record_get_other. intros rev ->. apply (Hn rev). auto.
Qed.

(** No name that the empty object inherits becomes a key of the results. *)
Lemma record_inherited n results c :
  inheritedKey n = true -> get n results = None -> get n (record results c) = None.
Proof.
  intros Hi Hnone. destruct c as [[k rev]|]; simpl; auto.
  destruct (string_dec k n) as [->|Hne].
  - destruct (recordRevision_cases n rev results)
      as [(_ & Hp & _) | [(f & ds & Hg & _) | [(f & Hg & _) | (_ & _ & ->)]]];
      congruence.
  - rewrite <- Hnone. apply (record_get_other n results (Some (k, rev))). congruence.
Qed.

Lemma fold_inherited n candidates results :
  inheritedKey n = true -> get n results = None ->
  get n (fold_left record candidates results) = None.
Proof.
  intros Hi. revert results. induction candidates as [|c cs IH]; simpl; auto.
  intros results Hnone. apply IH. now apply record_inherited.
Qed.

(** C5. No name of the effective [exclude] list is a key of the results of
    [findModulesAsync], and a package with such a name is passed over
    without an error once its files are read. *)
Theorem findModulesAsync_excludes :
  forall (H : Host) (fuel : nat) (providedOptions options : JsObject)
         (excluded : list JVal) (n : string),
    mergeLinkingOptionsAsync H fuel providedOptions = Ok options ->
    readProp options "exclude" = JArr excluded ->
    In (JStr n) excluded ->
    (forall results,
        findModulesAsync H fuel providedOptions = Ok results -> get n results = None) /\
    (forall searchPath packageConfigPath packagePath packageConfig manifest,
        realpath H (pathJoin H [searchPath; pathDirname H packageConfigPath])
        = Ok packagePath ->
        requireJson H (pathJoin H [packagePath; pathBasename H packageConfigPath])
        = Ok packageConfig ->
        requireManifest H (pathJoin H [packagePath; "package.json"]) = Ok manifest ->
        name manifest = n ->
        discover H options searchPath packageConfigPath = Ok None).
Proof.
  intros H fuel provided options excluded n Hmerge Hex Hin.
  assert (Hinc : includesOpt (readProp options "exclude") (JStr n)
                 = Ok (JBool true)).
  { rewrite Hex. simpl. f_equal. f_equal. apply existsb_exists.
    exists (JStr n). split; auto. simpl. apply String.eqb_refl. }
  split.
  - intros results Hfind.
    apply findModulesAsync_unfold in Hfind as (options' & cs & Hmerge' & Hall & ->).
    assert (options' = options) by congruence. subst options'.
    rewrite fold_get_other; auto.
    intros rev Hc. destruct (Forall2_In_r _ _ _ _ Hall Hc) as ([sp p] & _ & Hd).
    destruct (discover_not_excluded _ _ _ _ _ _ Hd) as (e & He & Hfalse).
    rewrite Hinc in He. inversion He. subst e. discriminate.
  - intros sp p pp cfg m Hreal Hcfg Hman Hname. unfold discover.
    rewrite Hreal. cbn [bind]. rewrite Hcfg. cbn [bind]. rewrite Hman. cbn [bind].
    unfold skipPackage. rewrite Hname, Hinc. reflexivity.
Qed.

(** *** First occurrence wins *)

Lemma grownFrom_refl r : grownFrom r r.
Proof. repeat split; auto. apply incl_refl. Qed.

Lemma grownFrom_trans a b c : grownFrom a b -> grownFrom b c -> grownFrom a c.
Proof.
  intros (Hp & Hi & Hd) (Hp' & Hi' & Hd'). repeat split; auto.
  - congruence.
  - eapply incl_tran; eauto.
Qed.

Lemma seenIn_grown a b p : grownFrom a b -> seenIn a p -> seenIn b p.
Proof.
  intros (Hp & Hi & _) [->|Hin]; [left; congruence|right; auto].
Qed.

Lemma record_grows n results c r :
  get n results = Some r ->
  exists r', get n (record results c) = Some r' /\ grownFrom r r' /\
             (forall rev, c = Some (n, rev) -> duplicates r <> None ->
                          seenIn r' (path rev)).
Proof.
  intros Hget. destruct c as [[k rev]|]; simpl.
  2:{ exists r. split; [auto|]. split; [apply grownFrom_refl|]. intros rev. discriminate. }
  destruct (string_dec k n) as [->|Hne].
  - destruct (recordRevision_cases n rev results)
      as [(Hnone & _) | [(f & ds & Hg & Hds & Hp & Hnin & ->)
         | [(f & Hg & Hseen & ->) | (Hnone & _)]]].
    + congruence.
    + assert (f = r) by congruence. subst f. rewrite get_set_same.
      eexists. split; [reflexivity|]. unfold grownFrom, seenIn, duplicatePaths.
      rewrite Hds. simpl. rewrite map_app. repeat split.
      * intros q Hq. apply in_or_app. auto.
      * discriminate.
      * intros rev' [= <-] _. right. apply in_or_app. right. simpl. auto.
    + assert (f = r) by congruence. subst f. exists r.
      repeat split; auto using incl_refl.
      intros rev' [= <-] Hsome. unfold seenIn.
      destruct Hseen as [Hs|[Hs|Hs]]; auto. contradiction.
    + congruence.
  - exists r. repeat split; auto using incl_refl.
    + rewrite <- Hget.
      apply (record_get_other n results (Some (k, rev))). congruence.
    + congruence.
Qed.

Lemma fold_grows n candidates results r :
  get n results = Some r -> duplicates r <> None ->
  exists r', get n (fold_left record candidates results) = Some r' /\
             grownFrom r r' /\
             (forall rev, In (Some (n, rev)) candidates -> seenIn r' (path rev)).
Proof.
  revert results r. induction candidates as [|c cs IH]; simpl; intros results r Hget Hsome.
  - exists r. repeat split; auto using incl_refl. tauto.
  - destruct (record_grows n results c r Hget) as (r1 & Hget1 & Hgrow1 & Hseen1).
    assert (Hsome1 : duplicates r1 <> None) by (apply Hgrow1; auto).
    destruct (IH _ _ Hget1 Hsome1) as (r2 & Hget2 & Hgrow2 & Hseen2).
    exists r2. split; auto. split; [eapply grownFrom_trans; eauto|].
    intros rev [->|Hin]; auto.
    eapply seenIn_grown; eauto.
Qed.

Lemma fold_first_occurrence n rev before after :
  inheritedKey n = false ->
  (forall rev', ~ In (Some (n, rev')) before) ->
  exists r,
    get n (fold_left record (before ++ Some (n, rev) :: after) []) = Some r /\
    primary r = rev /\
    (forall rev', In (Some (n, rev')) after -> seenIn r (path rev')).
Proof.
  intros Hplain Hfresh. rewrite fold_left_app. simpl.
  set (r0 := fold_left record before []).
  assert (Hnone : get n r0 = None) by (unfold r0; now rewrite fold_get_other).
  destruct (recordRevision_cases n rev r0)
    as [(_ & _ & Hrec) | [(f & ds & Hg & _) | [(f & Hg & _) | (_ & Hi & _)]]];
    try congruence.
  rewrite Hrec.
  destruct (fold_grows n after (set n (mkPrimary rev (Some [])) r0)
              (mkPrimary rev (Some []))) as (r & Hget & (Hp & _) & Hseen).
  - apply get_set_same.
  - discriminate.
  - exists r. auto.
Qed.

(** X17. For a name that is not a property of [Object.prototype], the
    primary recorded is the revision of the first candidate of that name in
    scan order (search paths in priority order, config paths in enumeration
    order inside each); every later candidate of that name has the path of
    the primary or is among its duplicates. *)
Theorem findModulesAsync_first_occurrence_is_primary :
  forall (H : Host) (fuel : nat) (providedOptions options : JsObject)
         (results : SearchResults) (before after : list (string * string))
         (searchPath configPath n : string) (revision : PackageRevision),
    inheritedKey n = false ->
    mergeLinkingOptionsAsync H fuel providedOptions = Ok options ->
    findModulesAsync H fuel providedOptions = Ok results ->
    scanOrder H (searchPathsOf options) = before ++ (searchPath, configPath) :: after ->
    discover H options searchPath configPath = Ok (Some (n, revision)) ->
    (forall sp p rev, In (sp, p) before ->
                      discover H options sp p <> Ok (Some (n, rev))) ->
    exists r,
      get n results = Some r /\
      primary r = revision /\
      (forall sp p rev,
          In (sp, p) after ->
          discover H options sp p = Ok (Some (n, rev)) ->
          path rev = path revision \/ In (path rev) (duplicatePaths r)).
Proof.
  intros H fuel provided options results before after sp p n rev
         Hplain Hmerge Hfind Hsplit Hd Hfresh.
  apply findModulesAsync_unfold in Hfind as (options' & cs & Hmerge' & Hall & ->).
  assert (options' = options) by congruence. subst options'.
  rewrite Hsplit in Hall.
  apply Forall2_app_inv_l in Hall as (cs1 & cs2' & Hall1 & Hall2 & ->).
  inversion Hall2 as [|v c l cs2 Hc Hall3]; subst.
  unfold discovered in Hc. simpl in Hc. rewrite Hd in Hc. inversion Hc. subst c.
  destruct (fold_first_occurrence n rev cs1 cs2 Hplain) as (r & Hget & Hp & Hseen).
  - intros rev' Hin.
    destruct (Forall2_In_r _ _ _ _ Hall1 Hin) as ([sp' p'] & Hin' & Hd').
    now apply (Hfresh sp' p' rev').
  - exists r. repeat split; auto.
    intros sp' p' rev' Hin Hd'.
    destruct (Forall2_In_l _ _ _ _ Hall3 Hin) as (c & Hc' & Hdc).
    unfold discovered in Hdc. simpl in Hdc. rewrite Hd' in Hdc. inversion Hdc. subst c.
    destruct (Hseen rev' Hc') as [Hs|Hs]; [left; congruence|right; auto].
Qed.

(** Two search paths, each with its own copy of a package that its
    manifest names [constructor]. *)
Definition inheritedNameCopies : Host :=
  Demo.tableHost "/work" []
    [("/a", ["ctor/unimodule.json"]); ("/b", ["ctor/unimodule.json"])]
    []
    [("/a/ctor/unimodule.json", Demo.platformsOf ["ios"]);
     ("/b/ctor/unimodule.json", Demo.platformsOf ["ios"])]
    [("/a/ctor/package.json", mkPackageJson "constructor" "1.0.0");
     ("/b/ctor/package.json", mkPackageJson "constructor" "1.1.0")]
    [("./platforms/ios", Demo.podLinking)].

Definition inheritedNameOptions : Obj JVal :=
  [("platform", JStr "ios"); ("searchPaths", JArr [JStr "/a"; JStr "/b"])].

(** C3. For a package whose name is a property of [Object.prototype]
    ([constructor], [toString], [valueOf], ...) no primary is recorded at
    all, from whichever search path it is discovered first: [results[name]]
    is never empty on [{}], so the branch that files the first occurrence is
    not taken.  For every other name the first occurrence is the
    primary. *)
Theorem findModulesAsync_inherited_name_not_recorded :
  forall (H : Host) (fuel : nat) (providedOptions : JsObject)
         (results : SearchResults) (n : string),
    inheritedKey n = true ->
    findModulesAsync H fuel providedOptions = Ok results ->
    get n results = None.
Proof.
  intros H fuel provided results n Hi Hfind.
  apply findModulesAsync_unfold in Hfind as (options & cs & _ & _ & ->).
  now apply fold_inherited.
Qed.

(** *** Layers of options *)

Lemma NoDup_keys_get {V : Type} (o : Obj V) k v :
  NoDup (keys o) -> In (k, v) o -> get k o = Some v.
Proof.
  induction o as [|[k' v'] o IH]; simpl; [tauto|].
  intros Hnd [Heq|Hin].
  - inversion Heq. subst. now rewrite String.eqb_refl.
  - inversion Hnd as [|? ? Hnotin Hnd']. subst.
    destruct (String.eqb k k') eqn:E; auto.
    apply String.eqb_eq in E. subst. exfalso. apply Hnotin.
    apply in_map_iff. exists (k', v). auto.
Qed.

Lemma lastBinding_In k v props : lastBinding k props = Some v -> In (k, v) props.
Proof.
  induction props as [|[k' v'] props IH]; simpl; [discriminate|].
  destruct (lastBinding k props).
  - intros [= ->]. auto.
  - destruct (String.eqb k k') eqn:E; [|discriminate].
    apply String.eqb_eq in E. intros [= ->]. subst. auto.
Qed.

Lemma lastBinding_None k props : lastBinding k props = None -> get k props = None.
Proof.
  induction props as [|[k' v'] props IH]; simpl; auto.
  destruct (lastBinding k props); [discriminate|].
  destruct (String.eqb k k'); [discriminate|auto].
Qed.

Lemma NoDup_keys_perm {V : Type} (o o' : Obj V) k :
  NoDup (keys o) -> Permutation o o' -> get k o' = get k o.
Proof.
  intros Hnd Hp.
  assert (Hnd' : NoDup (keys o')).
  { eapply Permutation_NoDup; [|exact Hnd]. now apply Permutation_map. }
  destruct (get k o) as [v|] eqn:E.
  - apply NoDup_keys_get; auto. eapply Permutation_in; eauto using get_In.
  - destruct (get k o') as [v'|] eqn:E'; auto.
    apply get_In in E'. exfalso. eapply get_None_not_In; eauto.
    eapply Permutation_in; [symmetry|]; eauto.
Qed.

(** On an object whose keys are distinct, the copied property is the
    property. *)
Lemma copied_object k fields :
  NoDup (keys fields) -> copied k (JObj fields) = get k fields.
Proof.
  intros Hnd. unfold copied. simpl.
  rewrite <- (NoDup_keys_perm fields (entries fields) k Hnd)
    by (symmetry; apply entries_perm).
  assert (Hnd' : NoDup (keys (entries fields))).
  { eapply Permutation_NoDup; [|exact Hnd].
    apply Permutation_map. symmetry. apply entries_perm. }
  destruct (lastBinding k (entries fields)) as [v|] eqn:E.
  - symmetry. apply NoDup_keys_get; auto. now apply lastBinding_In.
  - symmetry. now apply lastBinding_None.
Qed.




(** A falsy platform selects no section: it is itself the middle source,
    and has no property to give. *)
Lemma platformOptionsOf_props base requested :
  ownProps (platformOptionsOf base requested)
  = ownProps (if truthy requested then getPropOpt base (toString requested) else JUndef).
Proof.
  unfold platformOptionsOf. destruct (truthy requested) eqn:E; auto.
  destruct requested as [| |[]|z|s|l|o]; simpl in *; try discriminate; auto.
  apply negb_false_iff, String.eqb_eq in E. now subst.
Qed.

Lemma objectAssign_props target a b c a' b' c' :
  ownProps a = ownProps a' -> ownProps b = ownProps b' -> ownProps c = ownProps c' ->
  objectAssign target [a; b; c] = objectAssign target [a'; b'; c'].
Proof. unfold objectAssign. simpl. now intros -> -> ->. Qed.

(** The manifest that [mergeLinkingOptionsAsync] starts from. *)
Definition rootManifest (H : Host) : Outcome JVal :=
  match findPackageJsonPathAsync H with
  | Some packageJsonPath => requireJson H packageJsonPath
  | None => Ok (JObj [])
  end.

(** The section of the manifest's options that a request selects: the one
    named by the requested platform, none without a platform. *)
Definition requestedSection (base requested : JVal) : JVal :=
  if truthy requested then getPropOpt base (toString requested) else JUndef.

Lemma mergeLinkingOptionsAsync_inversion H fuel providedOptions final :
  mergeLinkingOptionsAsync H fuel providedOptions = Ok final ->
  exists packageJson expo searchPaths,
    rootManifest H = Ok packageJson /\
    getProp packageJson "expo" = Ok expo /\
    let base := getPropOpt expo "autolinking" in
    let platform := requestedSection base (readProp providedOptions "platform") in
    let merged := objectAssign emptyObject [base; platform; JObj (ownOf providedOptions)] in
    resolveSearchPathsAsync H fuel (readProp merged "searchPaths") (processCwd H)
    = Ok searchPaths /\
    final = writeProp merged "searchPaths" (JArr (map JStr searchPaths)).
Proof.
  unfold mergeLinkingOptionsAsync, rootManifest, optionLayers.
  destruct (match findPackageJsonPathAsync H with
            | Some p => requireJson H p
            | None => Ok (JObj [])
            end) as [pj| |] eqn:Ej; cbn [bind]; try discriminate.
  destruct (getProp pj "expo") as [expo| |] eqn:Ee; cbn [bind]; try discriminate.
  rewrite (objectAssign_props emptyObject _ _ _ _ _ _ eq_refl
             (platformOptionsOf_props _ _) eq_refl).
  fold (requestedSection (getPropOpt expo "autolinking")
          (readProp providedOptions "platform")).
  destruct (resolveSearchPathsAsync H fuel _ (processCwd H)) as [sps| |] eqn:Er;
    cbn [bind]; try discriminate.
  intros [= <-]. exists pj, expo, sps.
  split; [reflexivity|]. split; [exact Ee|]. cbv zeta.
  split; [exact Er|reflexivity].
Qed.

Lemma mergeLinkingOptionsAsync_eval H fuel providedOptions packageJson expo :
  rootManifest H = Ok packageJson ->
  getProp packageJson "expo" = Ok expo ->
  let base := getPropOpt expo "autolinking" in
  let platform := requestedSection base (readProp providedOptions "platform") in
  let merged := objectAssign emptyObject [base; platform; JObj (ownOf providedOptions)] in
  mergeLinkingOptionsAsync H fuel providedOptions
  = (searchPaths <- resolveSearchPathsAsync H fuel (readProp merged "searchPaths")
                      (processCwd H) ;;
     Ok (writeProp merged "searchPaths" (JArr (map JStr searchPaths)))).
Proof.
  intros Hroot Hexpo base platform merged.
  unfold mergeLinkingOptionsAsync, optionLayers. unfold rootManifest in Hroot.
  rewrite Hroot. cbn [bind]. rewrite Hexpo. cbn [bind].
  rewrite (objectAssign_props emptyObject _ _ _ _ _ _ eq_refl
             (platformOptionsOf_props _ _) eq_refl).
  reflexivity.
Qed.


(** *** Choice of the config file of a directory *)

Lemma set_keys_NoDup {V : Type} k (v : V) o : NoDup (keys o) -> NoDup (keys (set k v o)).
Proof.
  induction o as [|[k' v'] o IH]; simpl; intros Hnd.
  - constructor; [simpl; tauto|constructor].
  - destruct (String.eqb k k') eqn:E; simpl; auto.
    inversion Hnd as [|? ? Hnotin Hnd']. subst. constructor; auto.
    intros Hin. apply Hnotin. apply in_map_iff in Hin as ([k0 v0] & Hk & Hin).
    simpl in Hk. subst k0. apply in_map_iff.
    clear - Hin E. induction o as [|[k1 v1] o IHo]; simpl in *.
    + destruct Hin as [Heq|[]]. inversion Heq. subst.
      now rewrite String.eqb_refl in E.
    + destruct (String.eqb k k1) eqn:E1; simpl in Hin.
      * destruct Hin as [Heq|Hin]; [inversion Heq; subst|];
          eexists; split; [|left; reflexivity| |right; exact Hin]; reflexivity.
      * destruct Hin as [Heq|Hin].
        -- inversion Heq. subst. eexists. split; [|left; reflexivity]. reflexivity.
        -- destruct (IHo Hin) as (x & Hx & Hxin). exists x. auto.
Qed.

Lemma set_In {V : Type} k (v : V) o k0 v0 :
  In (k0, v0) (set k v o) -> (k0 = k /\ v0 = v) \/ In (k0, v0) o.
Proof.
  induction o as [|[k' v'] o IH]; simpl.
  - intros [Heq|[]]. inversion Heq. auto.
  - destruct (String.eqb k k') eqn:E; simpl.
    + apply String.eqb_eq in E. subst k'.
      intros [Heq|Hin]; [inversion Heq; auto|auto].
    + intros [Heq|Hin]; auto. destruct (IH Hin); auto.
Qed.


Section ConfigChoice.
Variable H : Host.



(** What a step of the reduce does when it returns: the directory is not
    an inherited name without an own entry, and the accumulator is left as
    it is or gets the path under its directory. *)
Lemma keepHighestPriority_cases acc p acc' :
  keepHighestPriority H acc p = Ok acc' ->
  (get (pathDirname H p) acc = None /\ inheritedKey (pathDirname H p) = false /\
   acc' = set (pathDirname H p) p acc) \/
  (exists kept,
      get (pathDirname H p) acc = Some kept /\
      (kept = EmptyString \/ (configPriority H kept < configPriority H p)%Z) /\
      acc' = set (pathDirname H p) p acc) \/
  (exists kept,
      get (pathDirname H p) acc = Some kept /\ kept <> EmptyString /\
      (configPriority H p <= configPriority H kept)%Z /\ acc' = acc).
Proof.
  unfold keepHighestPriority.
  destruct (slot_cases (pathDirname H p) acc)
    as [(kept & Eg & ->) | [(Eg & Ei & ->) | (Eg & Ei & ->)]]; try discriminate.
  - destruct (String.eqb kept EmptyString) eqn:Ek; simpl.
    + apply String.eqb_eq in Ek. intros [= <-]. right. left. eauto.
    + apply String.eqb_neq in Ek.
      destruct (Z.gtb_spec (configPriority H p) (configPriority H kept));
        intros [= <-].
      * right. left. exists kept. auto.
      * right. right. exists kept. auto.
  - intros [= <-]. auto.
Qed.

Lemma keepHighestPriority_returns acc p :
  inheritedKey (pathDirname H p) = false ->
  exists acc', keepHighestPriority H acc p = Ok acc'.
Proof.
  intros Hplain. unfold keepHighestPriority.
  destruct (slot_cases (pathDirname H p) acc)
    as [(kept & _ & ->) | [(_ & _ & ->) | (_ & Ei & _)]]; [| |congruence]; eauto.
  destruct (_ || _); eauto.
Qed.

Lemma keepHighestPriority_throws acc p :
  inheritedKey (pathDirname H p) = true -> get (pathDirname H p) acc = None ->
  keepHighestPriority H acc p
  = Throw (TypeError "The path argument must be of type string").
Proof.
  intros Hi Hnone. unfold keepHighestPriority, slot. now rewrite Hnone, Hi.
Qed.

(** No inherited name is a key of the accumulator. *)
Definition plainKeys (acc : Obj string) : Prop :=
  forall k, inheritedKey k = true -> get k acc = None.

Lemma plainKeys_step acc p acc' :
  keepHighestPriority H acc p = Ok acc' -> plainKeys acc -> plainKeys acc'.
Proof.
  intros Hstep Hplain.
  assert (Hdir : inheritedKey (pathDirname H p) = false).
  { destruct (keepHighestPriority_cases _ _ _ Hstep)
      as [(_ & Hi & _) | [(kept & Hg & _) | (kept & Hg & _)]]; auto;
      destruct (inheritedKey (pathDirname H p)) eqn:E; auto;
      rewrite (Hplain _ E) in Hg; discriminate. }
  assert (Hset : plainKeys (set (pathDirname H p) p acc)).
  { intros k Hk. rewrite get_set_other by congruence. now apply Hplain. }
  destruct (keepHighestPriority_cases _ _ _ Hstep)
    as [(_ & _ & ->) | [(kept & _ & _ & ->) | (kept & _ & _ & _ & ->)]]; auto.
Qed.

Lemma reduce_returns paths acc :
  (forall p, In p paths -> inheritedKey (pathDirname H p) = false) ->
  exists acc', forEach (keepHighestPriority H) paths acc = Ok acc'.
Proof.
  revert acc. induction paths as [|p paths IH]; simpl; intros acc Hplain; eauto.
  destruct (keepHighestPriority_returns acc p) as [acc1 ->]; auto.
  cbn [bind]. apply IH. auto.
Qed.

Lemma reduce_throws paths acc :
  plainKeys acc ->
  (exists p, In p paths /\ inheritedKey (pathDirname H p) = true) ->
  forEach (keepHighestPriority H) paths acc
  = Throw (TypeError "The path argument must be of type string").
Proof.
  revert acc. induction paths as [|q paths IH]; simpl; intros acc Hplain (p & Hin & Hi).
  - destruct Hin.
  - destruct (inheritedKey (pathDirname H q)) eqn:Eq.
    + rewrite keepHighestPriority_throws; auto.
    + destruct (keepHighestPriority_returns acc q Eq) as [acc1 Hstep].
      rewrite Hstep. cbn [bind]. apply IH.
      * eapply plainKeys_step; eauto.
      * destruct Hin as [->|Hin]; [congruence|eauto].
Qed.

Lemma filed_step paths acc p acc' :
  keepHighestPriority H acc p = Ok acc' ->
  filed H paths acc -> filed H (paths ++ [p]) acc'.
Proof.
  intros Hstep [Hnd Hall].
  assert (Hold : filed H (paths ++ [p]) acc).
  { split; auto. intros k v Hin. destruct (Hall k v Hin). split; auto.
    apply in_or_app. auto. }
  assert (Hnew : filed H (paths ++ [p]) (set (pathDirname H p) p acc)).
  { split; [now apply set_keys_NoDup|].
    intros k v Hin. apply set_In in Hin as [[-> ->]|Hin].
    - split; auto. apply in_or_app. simpl. auto.
    - now apply Hold. }
  destruct (keepHighestPriority_cases _ _ _ Hstep)
    as [(_ & _ & ->) | [(kept & _ & _ & ->) | (kept & _ & _ & _ & ->)]]; auto.
Qed.

Lemma filed_fold paths0 paths acc acc' :
  forEach (keepHighestPriority H) paths acc = Ok acc' ->
  filed H paths0 acc -> filed H (paths0 ++ paths) acc'.
Proof.
  revert paths0 acc. induction paths as [|p paths IH]; simpl; intros paths0 acc.
  - intros [= <-]. now rewrite app_nil_r.
  - destruct (keepHighestPriority H acc p) as [acc1| |] eqn:E; cbn [bind];
      try discriminate.
    intros Hrest Hf.
    replace (paths0 ++ p :: paths) with ((paths0 ++ [p]) ++ paths)
      by (now rewrite <- app_assoc).
    eapply IH; eauto. eapply filed_step; eauto.
Qed.

Lemma filed_empty : filed H [] [].
Proof. split; [constructor|]. intros k v []. Qed.




(** The directory of [p] has a kept path, not empty, of at least the
    priority of [p]. *)
Definition dominated (acc : Obj string) (p : string) : Prop :=
  exists v, get (pathDirname H p) acc = Some v /\ v <> EmptyString /\
            (configPriority H p <= configPriority H v)%Z.

Lemma dominated_step acc p q acc' :
  keepHighestPriority H acc q = Ok acc' -> q <> EmptyString ->
  dominated acc p -> dominated acc' p.
Proof.
  intros Hstep Hq (v & Hget & Hne & Hle).
  destruct (string_dec (pathDirname H q) (pathDirname H p)) as [Hd|Hd].
  - destruct (keepHighestPriority_cases _ _ _ Hstep)
      as [(Hg & _) | [(kept & Hg & Hwhy & ->) | (kept & _ & _ & _ & ->)]].
    + congruence.
    + rewrite Hd, Hget in Hg. inversion Hg. subst kept.
      exists q. rewrite Hd, get_set_same. repeat split; auto.
      destruct Hwhy; [contradiction|lia].
    + exists v. auto.
  - exists v. repeat split; auto.
    destruct (keepHighestPriority_cases _ _ _ Hstep)
      as [(_ & _ & ->) | [(kept & _ & _ & ->) | (kept & _ & _ & _ & ->)]]; auto;
      now rewrite get_set_other.
Qed.

Lemma dominated_self acc q acc' :
  keepHighestPriority H acc q = Ok acc' -> q <> EmptyString -> dominated acc' q.
Proof.
  intros Hstep Hq. unfold dominated.
  destruct (keepHighestPriority_cases _ _ _ Hstep)
    as [(_ & _ & ->) | [(kept & _ & _ & ->) | (kept & Hg & Hkne & Hle & ->)]].
  - exists q. rewrite get_set_same. repeat split; auto. lia.
  - exists q. rewrite get_set_same. repeat split; auto. lia.
  - exists kept. auto.
Qed.

Lemma dominated_fold paths acc acc' p :
  Forall (fun q => q <> EmptyString) paths ->
  forEach (keepHighestPriority H) paths acc = Ok acc' ->
  dominated acc p \/ In p paths -> dominated acc' p.
Proof.
  revert acc. induction paths as [|q paths IH]; simpl; intros acc Hall.
  - intros [= <-] [Hp|[]]. exact Hp.
  - inversion Hall as [|? ? Hq Hrest]. subst.
    destruct (keepHighestPriority H acc q) as [acc1| |] eqn:E; cbn [bind];
      try discriminate.
    intros Hrun Hp. apply (IH acc1 Hrest Hrun).
    destruct Hp as [Hp|[->|Hp]]; auto.
    + left. eapply dominated_step; eauto.
    + left. eapply dominated_self; eauto.
Qed.

Lemma uniqueConfigPaths_Ok paths kept :
  uniqueConfigPaths H paths = Ok kept ->
  exists acc,
    forEach (keepHighestPriority H) paths [] = Ok acc /\
    filed H paths acc /\
    forall p, In p kept <-> get (pathDirname H p) acc = Some p.
Proof.
  unfold uniqueConfigPaths.
  destruct (forEach (keepHighestPriority H) paths []) as [acc| |] eqn:E;
    cbn [bind]; try discriminate.
  intros [= <-]. exists acc. split; auto.
  pose proof (filed_fold [] paths [] acc E filed_empty) as Hf. simpl in Hf.
  split; auto. destruct Hf as [Hnd Hall].
  intros p. unfold objectValues. rewrite in_map_iff. split.
  - intros ([k v] & Hv & Hin). simpl in Hv. subst v.
    apply (proj1 (entries_In _ _)) in Hin.
    destruct (Hall _ _ Hin) as [<- _]. now apply NoDup_keys_get.
  - intros Hget. exists (pathDirname H p, p). split; auto.
    apply entries_In. now apply get_In.
Qed.


(** The reduce returns exactly when no directory is named as a property
    of [Object.prototype]. *)
Lemma uniqueConfigPaths_returns paths :
  (forall p, In p paths -> inheritedKey (pathDirname H p) = false) ->
  exists kept, uniqueConfigPaths H paths = Ok kept.
Proof.
  intros Hplain. unfold uniqueConfigPaths.
  destruct (reduce_returns paths [] Hplain) as [acc ->]. cbn [bind]. eauto.
Qed.

Lemma uniqueConfigPaths_throws paths :
  (exists p, In p paths /\ inheritedKey (pathDirname H p) = true) ->
  uniqueConfigPaths H paths
  = Throw (TypeError "The path argument must be of type string").
Proof.
  intros Hsome. unfold uniqueConfigPaths. rewrite reduce_throws; auto.
  intros k _. reflexivity.
Qed.
End ConfigChoice.

Lemma keptConfigPaths_Ok H paths kept :
  uniqueConfigPaths H paths = Ok kept -> keptConfigPaths H paths = kept.
Proof. unfold keptConfigPaths. now intros ->. Qed.

Lemma scannable_plain_directories H searchPaths :
  (forall searchPath p,
      In searchPath searchPaths -> In p (glob H configPatterns searchPath) ->
      inheritedKey (pathDirname H p) = false) ->
  scannable H searchPaths.
Proof.
  intros Hplain sp Hsp. apply uniqueConfigPaths_returns. intros p. now apply Hplain.
Qed.

(** *** What [findModulesAsync] reads *)

Lemma forEach_ext {A S : Type} (body body' : S -> A -> Outcome S) l s :
  (forall x, In x l -> forall s', body s' x = body' s' x) ->
  forEach body l s = forEach body' l s.
Proof.
  revert s. induction l as [|x l IH]; simpl; intros s Hext; auto.
  rewrite (Hext x (or_introl eq_refl)). destruct (body' s x); simpl; auto.
Qed.

Section OtherRequire.
Variable H : Host.
Variable f : string -> Outcome JVal.

Let H' := withRequireJson H f.


Lemma resolveSearchPathsAsync_otherRequire fuel v cwd :
  resolveSearchPathsAsync H' fuel v cwd = resolveSearchPathsAsync H fuel v cwd.
Proof. reflexivity. Qed.


End OtherRequire.



(** ** The claims on concrete file trees *)

Example project_findModules :
  findModulesAsync Demo.project 3 (plain Demo.iosOptions)
  = Ok [("foo", mkPrimary (mkRevision "/app/node_modules/foo" "1.0.0") (Some []));
        ("bar", mkPrimary (mkRevision "/app/node_modules/bar" "2.0.0")
                  (Some [mkRevision "/app/vendor/bar" "2.1.0"]))].
Proof. vm_compute. reflexivity. Qed.

Example threeCopies_findModules :
  findModulesAsync Demo.threeCopies 1 (plain Demo.threeOptions)
  = Ok [("bar", mkPrimary (mkRevision "/a/bar" "1.0.0")
                  (Some [mkRevision "/b/bar" "1.1.0"; mkRevision "/c/bar" "1.2.0"]))].
Proof. vm_compute. reflexivity. Qed.

Lemma lexCompare_le_iff a b :
  (Demo.lexCompare a b <= 0)%Z <-> a = b \/ OrderedTypeEx.String_as_OT.lt a b.
Proof.
  unfold Demo.lexCompare.
  pose proof (OrderedTypeEx.String_as_OT.cmp_eq a b) as Heq.
  pose proof (OrderedTypeEx.String_as_OT.cmp_lt a b) as Hlt.
  unfold OrderedTypeEx.String_as_OT.cmp in *.
  destruct (String.compare a b) eqn:E; split; intros Hle; try lia.
  - left. now apply Heq.
  - right. now apply Hlt.
  - destruct Hle as [Hab|Hab]; [apply Heq in Hab|apply Hlt in Hab]; discriminate.
Qed.

Lemma lexCompare_total a b :
  (0 < Demo.lexCompare a b)%Z -> (Demo.lexCompare b a <= 0)%Z.
Proof.
  unfold Demo.lexCompare. rewrite (String.compare_antisym b a).
  destruct (String.compare a b); simpl; lia.
Qed.

Lemma lexCompare_trans a b c :
  (Demo.lexCompare a b <= 0)%Z -> (Demo.lexCompare b c <= 0)%Z ->
  (Demo.lexCompare a c <= 0)%Z.
Proof.
  rewrite !lexCompare_le_iff. intros [->|Hab] [->|Hbc]; auto.
  right. eapply OrderedTypeEx.String_as_OT.lt_trans; eauto.
Qed.

Lemma collate_total a b :
  (0 < Demo.collate a b)%Z -> (Demo.collate b a <= 0)%Z.
Proof. apply lexCompare_total. Qed.

Lemma collate_trans a b c :
  (Demo.collate a b <= 0)%Z -> (Demo.collate b c <= 0)%Z -> (Demo.collate a c <= 0)%Z.
Proof. apply lexCompare_trans. Qed.

Lemma resolveModulesAsync_sorted_witness :
  (StronglySorted (packageNameBefore Demo.project) projectModules /\
   forall order',
     resolveModulesAsync Demo.project order' projectResults Demo.iosOptions
     = Ok projectModules) /\
  (StronglySorted (packageNameBefore Demo.collatingProject) mixedCaseModules /\
   forall order',
     resolveModulesAsync Demo.collatingProject order' mixedCaseResults Demo.iosOptions
     = Ok mixedCaseModules).
Proof.
  split.
  - apply (resolveModulesAsync_sorted Demo.project [1; 0]%nat projectResults
             Demo.iosOptions lexCompare_total lexCompare_trans).
    vm_compute. reflexivity.
  - apply (resolveModulesAsync_sorted Demo.collatingProject [0; 1]%nat
             mixedCaseResults Demo.iosOptions collate_total collate_trans).
    vm_compute. reflexivity.
Defined.

Lemma resolveModulesAsync_fails_fast_witness :
  exists e packageName revision,
    In (packageName, revision) (("broken", fooEntry) :: projectResults) /\
    Demo.podResolve packageName revision Demo.iosOptions = Throw e /\
    resolveModulesAsync Demo.project [2; 1; 0]%nat
      (("broken", fooEntry) :: projectResults) Demo.iosOptions = Throw e.
Proof.
  apply (resolveModulesAsync_fails_fast Demo.project [2; 1; 0]%nat
           (("broken", fooEntry) :: projectResults) Demo.iosOptions
           Demo.podLinking Demo.podResolve).
  - vm_compute. reflexivity.
  - reflexivity.
  - exists "broken", fooEntry. split; [left; reflexivity | vm_compute; reflexivity].
Defined.

Lemma generatePackageListAsync_unsupported_platform_witness :
  generatePackageListAsync Demo.project projectModules [("platform", JStr "web")]
    emptyWorld
  = (Ok tt,
     mkWorld [] ["Generating package list is not available for platform: web"]) /\
  generatePackageListAsync Demo.project projectModules Demo.iosOptions emptyWorld
  = (Ok tt,
     mkWorld [] ["Generating package list is not available for platform: ios"]).
Proof.
  split.
  - apply (generatePackageListAsync_unsupported_platform Demo.project projectModules
             [("platform", JStr "web")] emptyWorld).
    left. vm_compute. reflexivity.
  - apply (generatePackageListAsync_unsupported_platform Demo.project projectModules
             Demo.iosOptions emptyWorld).
    right. exists Demo.podLinking. split; [vm_compute; reflexivity | reflexivity].
Defined.

(** On a platform with an emitter the artifact is written. *)
Example generatePackageListAsync_android :
  generatePackageListAsync Demo.project projectModules
    [("platform", JStr "android"); ("target", JStr "PackageList.java")] emptyWorld
  = (Ok tt, mkWorld [mkArtifact "PackageList.java" "bar;foo"] []).
Proof. vm_compute. reflexivity. Qed.

Lemma resolveSearchPathsAsync_explicit_or_default_witness :
  resolveSearchPathsAsync Demo.project 3 (JArr [JStr "node_modules"; JStr "/opt/lib"]) "/app"
  = Ok ["/app/node_modules"; "/opt/lib"] /\
  findDefaultPathsAsync Demo.project 1 "/" = Ok [] /\
  findDefaultPathsAsync Demo.project 2 "/app" = Ok ["/app/node_modules"].
Proof.
  destruct (resolveSearchPathsAsync_explicit_or_default Demo.project 3 "/app")
    as (Hexplicit & _).
  destruct (resolveSearchPathsAsync_explicit_or_default Demo.project 0 "/")
    as (_ & _ & _ & _ & Hnone & _).
  destruct (resolveSearchPathsAsync_explicit_or_default Demo.project 1 "/app")
    as (_ & _ & _ & _ & _ & Hsome & _).
  split; [|split].
  - exact (Hexplicit "node_modules" ["/opt/lib"]).
  - apply Hnone. reflexivity.
  - rewrite (Hsome "/app/package.json" eq_refl). vm_compute. reflexivity.
Defined.

Definition androidOptions : Obj JVal := [("platform", JStr "android")].

Lemma findModulesAsync_skips_missing_platforms_witness :
  (discover Demo.project (plain Demo.iosOptions) "/app/node_modules" "foo/unimodule.json"
   = Ok None /\
   processPackage Demo.project (plain Demo.iosOptions) "/app/node_modules" projectResults
     "foo/unimodule.json" = Ok projectResults) /\
  (discover Demo.project (plain androidOptions) "/app/node_modules" "bar/unimodule.json"
   = Ok None /\
   processPackage Demo.project (plain androidOptions) "/app/node_modules" projectResults
     "bar/unimodule.json" = Ok projectResults).
Proof.
  split.
  - apply (findModulesAsync_skips_missing_platforms Demo.project (plain Demo.iosOptions)
             "/app/node_modules" "foo/unimodule.json" "/app/node_modules/foo"
             [] (mkPackageJson "foo" "1.0.0") JUndef projectResults).
    + vm_compute. reflexivity.
    + vm_compute. reflexivity.
    + vm_compute. reflexivity.
    + vm_compute. reflexivity.
    + left. reflexivity.
  - apply (findModulesAsync_skips_missing_platforms Demo.project (plain androidOptions)
             "/app/node_modules" "bar/unimodule.json" "/app/node_modules/bar"
             [("platforms", JArr [JStr "ios"])] (mkPackageJson "bar" "2.0.0") JUndef
             projectResults).
    + vm_compute. reflexivity.
    + vm_compute. reflexivity.
    + vm_compute. reflexivity.
    + vm_compute. reflexivity.
    + right. exists [JStr "ios"]. split; reflexivity.
Defined.

Lemma findModulesAsync_duplicates_distinct_witness :
  (forall n r,
      get n projectResults = Some r ->
      exists ds,
        duplicates r = Some ds /\
        ~ In (path (primary r)) (map path ds) /\ NoDup (map path ds)) /\
  recordRevision "bar" (mkRevision "/app/vendor/bar" "2.1.0") projectResults
  = projectResults.
Proof.
  destruct (findModulesAsync_duplicates_distinct Demo.project 3 (plain Demo.iosOptions)
              projectResults) as [Hshape Hnoop].
  - vm_compute. reflexivity.
  - split; [exact Hshape|].
    apply (Hnoop projectResults "bar" (mkRevision "/app/vendor/bar" "2.1.0") barEntry).
    + reflexivity.
    + right. simpl. auto.
Defined.

Lemma findModulesAsync_excludes_witness :
  (forall results,
      findModulesAsync Demo.project 3 (plain Demo.iosOptions) = Ok results ->
      get "baz" results = None) /\
  discover Demo.project (plain projectOptions) "/app/node_modules"
    "@scope/baz/expo-module.config.json" = Ok None.
Proof.
  destruct (findModulesAsync_excludes Demo.project 3 (plain Demo.iosOptions)
              (plain projectOptions) [JStr "baz"] "baz") as [Hkeys Hskip].
  - vm_compute. reflexivity.
  - reflexivity.
  - left. reflexivity.
  - split; [exact Hkeys|].
    apply (Hskip "/app/node_modules" "@scope/baz/expo-module.config.json"
             "/app/node_modules/@scope/baz" (Demo.platformsOf ["ios"])
             (mkPackageJson "baz" "0.1.0")); vm_compute; reflexivity.
Defined.

Lemma findModulesAsync_inherited_name_not_recorded_witness :
  discover inheritedNameCopies (plain inheritedNameOptions) "/a" "ctor/unimodule.json"
  = Ok (Some ("constructor", mkRevision "/a/ctor" "1.0.0")) /\
  discover inheritedNameCopies (plain inheritedNameOptions) "/b" "ctor/unimodule.json"
  = Ok (Some ("constructor", mkRevision "/b/ctor" "1.1.0")) /\
  exists results,
    findModulesAsync inheritedNameCopies 1 (plain inheritedNameOptions) = Ok results /\
    get "constructor" results = None /\
    results = [].
Proof.
  split; [vm_compute; reflexivity|]. split; [vm_compute; reflexivity|].
  exists []. split; [vm_compute; reflexivity|]. split; [|reflexivity].
  apply (findModulesAsync_inherited_name_not_recorded inheritedNameCopies 1
           (plain inheritedNameOptions) [] "constructor").
  - reflexivity.
  - vm_compute. reflexivity.
Defined.

Lemma findModulesAsync_first_occurrence_is_primary_witness :
  exists r,
    get "bar" threeResults = Some r /\
    primary r = mkRevision "/a/bar" "1.0.0" /\
    (forall sp p rev,
        In (sp, p) [("/b", "bar/unimodule.json"); ("/c", "bar/unimodule.json")] ->
        discover Demo.threeCopies (plain Demo.threeOptions) sp p = Ok (Some ("bar", rev)) ->
        path rev = "/a/bar" \/ In (path rev) (duplicatePaths r)).
Proof.
  apply (findModulesAsync_first_occurrence_is_primary Demo.threeCopies 1
           (plain Demo.threeOptions) (plain Demo.threeOptions) threeResults []
           [("/b", "bar/unimodule.json"); ("/c", "bar/unimodule.json")]
           "/a" "bar/unimodule.json" "bar" (mkRevision "/a/bar" "1.0.0")).
  - reflexivity.
  - vm_compute. reflexivity.
  - vm_compute. reflexivity.
  - vm_compute. reflexivity.
  - vm_compute. reflexivity.
  - intros sp p rev [].
Defined.

Definition projectManifest : JVal :=
  JObj [("name", JStr "app"); ("expo", JObj [("autolinking", projectBase)])].


(** Three layers on one key: the provided options win over the platform
    section, which wins over the base section, and the winner is taken
    whole. *)
Example mergeLinkingOptionsAsync_shallow :
  mergeLinkingOptionsAsync Demo.project 3
    (plain [("platform", JStr "ios"); ("exclude", JArr [JStr "bar"])])
  = Ok (plain [("exclude", JArr [JStr "bar"]);
               ("searchPaths", JArr [JStr "/app/node_modules"; JStr "/app/vendor"]);
               ("ios", JObj [("searchPaths", JArr [JStr "node_modules"; JStr "vendor"])]);
               ("platform", JStr "ios")]).
Proof. vm_compute. reflexivity. Qed.


(** ** Further properties of the code *)

(** *** [verifySearchResults] *)

Lemma reportRevision_fold R cwd l n out :
  fold_left (reportRevision R cwd) l (n, out)
  = (n + List.length (filter hasDuplicates l),
     out ++ flat_map (fun entry =>
                        match duplicates (snd entry) with
                        | Some (d :: ds) =>
                            revisionLines R cwd (fst entry) (snd entry) (d :: ds)
                        | _ => []
                        end) l).
Proof.
  revert n out. induction l as [|[k r] l IH]; intros n out; simpl.
  - now rewrite Nat.add_0_r, app_nil_r.
  - unfold reportRevision at 2, hasDuplicates at 1. simpl.
    destruct (duplicates r) as [[|d ds]|]; rewrite IH; simpl.
    + reflexivity.
    + rewrite <- app_assoc. simpl. f_equal. lia.
    + reflexivity.
Qed.

Lemma filter_length_perm {A : Type} (f : A -> bool) (l l' : list A) :
  Permutation l l' -> List.length (filter f l) = List.length (filter f l').
Proof.
  induction 1 as [|x l l' _ IH|x y l|l l' l'' _ IH1 _ IH2]; simpl; auto.
  - destruct (f x); simpl; auto.
  - destruct (f x), (f y); reflexivity.
  - congruence.
Qed.

(** X1. [verifySearchResults] returns the number of names whose list of
    duplicates is not empty, which is the number it is modelled to return
    without its output and never more than the number of names; it prints
    nothing exactly when that number is zero, and otherwise its last line
    is the summary warning. *)
Theorem verifySearchResults_report :
  forall (R : Reporter) (H : Host) (searchResults : SearchResults),
    let counter := fst (verifySearchResultsReport R H searchResults) in
    let printed := snd (verifySearchResultsReport R H searchResults) in
    counter = List.length (filter hasDuplicates searchResults) /\
    counter = verifySearchResults searchResults /\
    (counter <= List.length searchResults)%nat /\
    (counter = 0 <-> printed = []) /\
    ((0 < counter)%nat ->
     exists before, printed = before ++ [Warn multipleRevisionsSummary]).
Proof.
  intros R H sr. unfold verifySearchResultsReport.
  rewrite reportRevision_fold. simpl.
  assert (Hn : List.length (filter hasDuplicates (entries sr))
               = List.length (filter hasDuplicates sr)).
  { apply filter_length_perm, entries_perm. }
  assert (Hle : (List.length (filter hasDuplicates sr) <= List.length sr)%nat).
  { apply filter_length_le. }
  assert (Hcount : verifySearchResults sr
                   = List.length (filter hasDuplicates (entries sr))).
  { unfold verifySearchResults. f_equal. }
  rewrite Hcount, <- Hn. clear Hcount.
  destruct (List.length (filter hasDuplicates (entries sr))) as [|m] eqn:En; simpl.
  - repeat split; auto; try lia.
    intros _.
    assert (Hnone : forall x, In x (entries sr) -> hasDuplicates x = false).
    { intros x Hx. destruct (hasDuplicates x) eqn:Ex; auto.
      assert (Hin : In x (filter hasDuplicates (entries sr)))
        by (apply filter_In; auto).
      destruct (filter hasDuplicates (entries sr));
        [destruct Hin|discriminate]. }
    clear En Hn. induction (entries sr) as [|[k r] l' IH]; auto.
    simpl. pose proof (Hnone (k, r) (or_introl eq_refl)) as Hk.
    unfold hasDuplicates in Hk. simpl in Hk.
    destruct (duplicates r) as [[|d ds]|]; try discriminate; simpl;
      apply IH; intros x Hx; apply Hnone; right; exact Hx.
  - repeat split; auto; try lia; try discriminate.
    + intros Hnil. apply app_eq_nil in Hnil as [_ Hnil]. discriminate.
    + eexists. reflexivity.
Qed.

(** *** What the scan records *)

(** The path [q] is recorded for the name [n], as the primary or as a
    duplicate. *)
Definition recordedAt (results : SearchResults) (n q : string) : Prop :=
  exists r, get n results = Some r /\ seenIn r q.

Lemma recordedAt_record results c n q :
  allTracked results -> inheritedKey n = false ->
  recordedAt (record results c) n q <->
  recordedAt results n q \/ exists rev, c = Some (n, rev) /\ path rev = q.
Proof.
  intros Hall Hplain. destruct c as [[k rev]|]; simpl.
  2:{ split; [auto|]. intros [Hr|(rev & Hc & _)]; [auto|discriminate]. }
  unfold recordedAt, seenIn.
  destruct (recordRevision_cases k rev results)
    as [(Hnone & _ & ->) | [(found & ds & Hget & Hds & Hp & Hnin & ->)
                     | [(found & Hget & Hseen & ->) | (Hnone & Hi & ->)]]].
  - destruct (string_dec k n) as [->|Hne].
    + rewrite get_set_same. rewrite Hnone. split.
      * intros (r & [= <-] & [->|[]]). right. eauto.
      * intros [(r & Hr & _)|(rev' & [= <-] & <-)]; [discriminate|].
        eexists. split; [reflexivity|]. left. reflexivity.
    + rewrite get_set_other by auto. split; [auto|].
      intros [Hr|(rev' & [= Hk _] & _)]; [auto|contradiction].
  - destruct (string_dec k n) as [->|Hne].
    + rewrite get_set_same, Hget. unfold duplicatePaths. split.
      * intros (r & [= <-] & Hs). simpl in Hs. rewrite map_app, in_app_iff in Hs.
        simpl in Hs. destruct Hs as [Hs|[Hs|[Hs|[]]]].
        -- left. exists found. split; auto.
        -- left. exists found. split; auto. rewrite Hds. auto.
        -- right. exists rev. auto.
      * intros [(r & [= <-] & Hs)|(rev' & [= <-] & <-)].
        -- rewrite Hds in Hs. eexists. split; [reflexivity|]. simpl.
           rewrite map_app, in_app_iff. tauto.
        -- eexists. split; [reflexivity|]. simpl. right.
           rewrite map_app, in_app_iff. simpl. auto.
    + rewrite get_set_other by auto. split; [auto|].
      intros [Hr|(rev' & [= Hk _] & _)]; [auto|contradiction].
  - split; [auto|]. intros [Hr|(rev' & [= <- <-] & <-)]; auto.
    exists found. split; auto.
    destruct Hseen as [Hs|[Hs|Hs]]; auto.
    destruct (Hall _ _ Hget) as (Hsome & _). contradiction.
  - split; [auto|]. intros [Hr|(rev' & [= <- <-] & <-)]; auto. congruence.
Qed.

Lemma recordedAt_fold candidates results n q :
  allTracked results -> inheritedKey n = false ->
  recordedAt (fold_left record candidates results) n q <->
  recordedAt results n q \/ exists rev, In (Some (n, rev)) candidates /\ path rev = q.
Proof.
  intros Hall Hplain. revert results Hall.
  induction candidates as [|c cs IH]; simpl; intros results Hall.
  - split; [auto|]. intros [Hr|(rev & [] & _)]. exact Hr.
  - pose proof (IH (record results c) (allTracked_record _ c Hall)) as Hrest.
    pose proof (recordedAt_record results c n q Hall Hplain) as Hstep.
    split.
    + intros Hr. apply Hrest in Hr as [Hr|(rev & Hin & Hq)].
      * apply Hstep in Hr as [Hr|(rev & Hc & Hq)]; [auto|].
        right. exists rev. auto.
      * right. exists rev. auto.
    + intros [Hr|(rev & [Hc|Hin] & Hq)]; apply Hrest.
      * left. apply Hstep. auto.
      * left. apply Hstep. right. exists rev. auto.
      * right. exists rev. auto.
Qed.

(** X2. For a name that is not a property of [Object.prototype], the
    paths that [findModulesAsync] records, as the primary or among the
    duplicates, are exactly the canonical paths of the packages of that name
    that pass the exclusion and platform tests somewhere in the scan: none
    is lost and none is made up. *)
Theorem findModulesAsync_records_all_candidates :
  forall (H : Host) (fuel : nat) (providedOptions options : JsObject)
         (results : SearchResults) (n q : string),
    inheritedKey n = false ->
    mergeLinkingOptionsAsync H fuel providedOptions = Ok options ->
    findModulesAsync H fuel providedOptions = Ok results ->
    ((exists r, get n results = Some r /\
                (q = path (primary r) \/ In q (duplicatePaths r)))
     <->
     (exists searchPath configPath revision,
         In (searchPath, configPath) (scanOrder H (searchPathsOf options)) /\
         discover H options searchPath configPath = Ok (Some (n, revision)) /\
         path revision = q)).
Proof.
  intros H fuel provided options results n q Hplain Hmerge Hfind.
  apply findModulesAsync_unfold in Hfind as (options' & cs & Hmerge' & Hall & ->).
  assert (options' = options) by congruence. subst options'.
  change (recordedAt (fold_left record cs []) n q <->
          (exists sp p rev, In (sp, p) (scanOrder H (searchPathsOf options)) /\
                            discover H options sp p = Ok (Some (n, rev)) /\
                            path rev = q)).
  rewrite (recordedAt_fold cs [] n q allTracked_empty Hplain). split.
  - intros [(r & Hr & _)|(rev & Hin & Hq)]; [discriminate|].
    destruct (Forall2_In_r _ _ _ _ Hall Hin) as ([sp p] & Hv & Hd).
    exists sp, p, rev. auto.
  - intros (sp & p & rev & Hv & Hd & Hq). right.
    destruct (Forall2_In_l _ _ _ _ Hall Hv) as (c & Hc & Hdc).
    unfold discovered in Hdc. simpl in Hdc. rewrite Hd in Hdc. inversion Hdc.
    subst c. eauto.
Qed.

Lemma findModulesAsync_records_all_candidates_witness :
  (exists r, get "bar" projectResults = Some r /\
             ("/app/vendor/bar" = path (primary r) \/
              In "/app/vendor/bar" (duplicatePaths r)))
  <->
  (exists searchPath configPath revision,
      In (searchPath, configPath)
         (scanOrder Demo.project (searchPathsOf (plain projectOptions))) /\
      discover Demo.project (plain projectOptions) searchPath configPath
      = Ok (Some ("bar", revision)) /\
      path revision = "/app/vendor/bar").
Proof.
  apply (findModulesAsync_records_all_candidates Demo.project 3 (plain Demo.iosOptions)
           (plain projectOptions) projectResults "bar" "/app/vendor/bar");
    vm_compute; reflexivity.
Defined.

Lemma record_keys_NoDup results c :
  NoDup (keys results) -> NoDup (keys (record results c)).
Proof.
  intros Hnd. destruct c as [[k rev]|]; simpl; auto.
  destruct (recordRevision_cases k rev results)
    as [(_ & _ & ->) | [(f & ds & _ & _ & _ & _ & ->)
       | [(_ & _ & _ & ->) | (_ & _ & ->)]]]; auto;
    now apply set_keys_NoDup.
Qed.

Lemma fold_keys_NoDup candidates results :
  NoDup (keys results) -> NoDup (keys (fold_left record candidates results)).
Proof.
  revert results. induction candidates as [|c cs IH]; simpl; auto.
  intros results Hnd. apply IH, record_keys_NoDup, Hnd.
Qed.

Lemma verifySearchResults_zero results :
  verifySearchResults results = 0 <->
  forall entry, In entry results -> hasDuplicates entry = false.
Proof.
  unfold verifySearchResults.
  change (List.length (filter hasDuplicates (entries results)) = 0 <->
          forall entry, In entry results -> hasDuplicates entry = false).
  split.
  - intros Hlen entry Hin. apply (proj2 (entries_In _ _)) in Hin.
    destruct (hasDuplicates entry) eqn:E; auto.
    assert (Hf : In entry (filter hasDuplicates (entries results)))
      by (apply filter_In; auto).
    destruct (filter hasDuplicates (entries results)); [destruct Hf|discriminate].
  - intros Hnone.
    destruct (filter hasDuplicates (entries results)) as [|e l] eqn:E; auto.
    assert (Hf : In e (filter hasDuplicates (entries results)))
      by (rewrite E; left; reflexivity).
    apply filter_In in Hf as [Hin He]. apply (proj1 (entries_In _ _)) in Hin.
    rewrite (Hnone e Hin) in He. discriminate.
Qed.

Lemma verifySearchResults_zero_fold candidates :
  verifySearchResults (fold_left record candidates []) = 0 <->
  forall n rev1 rev2,
    inheritedKey n = false ->
    In (Some (n, rev1)) candidates -> In (Some (n, rev2)) candidates ->
    path rev1 = path rev2.
Proof.
  set (results := fold_left record candidates []).
  assert (Htracked : allTracked results)
    by (apply allTracked_fold, allTracked_empty).
  assert (Hnd : NoDup (keys results))
    by (apply fold_keys_NoDup; constructor).
  assert (Hrec : forall n q,
             inheritedKey n = false ->
             (recordedAt results n q <->
              exists rev, In (Some (n, rev)) candidates /\ path rev = q)).
  { intros n q Hplain. unfold results.
    rewrite (recordedAt_fold candidates [] n q allTracked_empty Hplain). split.
    - intros [(r & Hr & _)|Hc]; [discriminate|exact Hc].
    - auto. }
  rewrite verifySearchResults_zero. split.
  - intros Hnone n rev1 rev2 Hplain H1 H2.
    assert (R1 : recordedAt results n (path rev1)) by (apply Hrec; eauto).
    assert (R2 : recordedAt results n (path rev2)) by (apply Hrec; eauto).
    destruct R1 as (r & Hget & S1). destruct R2 as (r' & Hget' & S2).
    assert (r' = r) by congruence. subst r'.
    pose proof (Hnone (n, r) (get_In _ _ _ Hget)) as Hno.
    destruct (Htracked _ _ Hget) as (Hsome & _).
    unfold hasDuplicates in Hno. simpl in Hno. unfold seenIn, duplicatePaths in *.
    destruct (duplicates r) as [[|d ds]|]; try discriminate; try contradiction.
    simpl in *. destruct S1 as [S1|[]], S2 as [S2|[]]. congruence.
  - intros Hsame [n r] Hin.
    assert (Hget : get n results = Some r) by (now apply NoDup_keys_get).
    assert (Hplain : inheritedKey n = false).
    { destruct (inheritedKey n) eqn:E; auto.
      unfold results in Hget. rewrite fold_inherited in Hget; auto. discriminate. }
    destruct (hasDuplicates (n, r)) eqn:Ed; auto. exfalso.
    unfold hasDuplicates in Ed. simpl in Ed.
    destruct (duplicates r) as [[|d ds]|] eqn:Eds; try discriminate.
    destruct (Htracked _ _ Hget) as (_ & Hnotin & _).
    unfold duplicatePaths in Hnotin. rewrite Eds in Hnotin.
    assert (R1 : recordedAt results n (path (primary r))).
    { exists r. split; auto. left. reflexivity. }
    assert (R2 : recordedAt results n (path d)).
    { exists r. split; auto. right. unfold duplicatePaths. rewrite Eds.
      simpl. auto. }
    apply (Hrec _ _ Hplain) in R1 as (rev1 & H1 & Hq1).
    apply (Hrec _ _ Hplain) in R2 as (rev2 & H2 & Hq2).
    apply Hnotin. simpl. left. rewrite <- Hq1, <- Hq2. symmetry.
    now apply (Hsame n rev1 rev2).
Qed.

(** X3. On the results of [findModulesAsync], [verifySearchResults]
    returns zero exactly when any two packages of one name that pass the
    tests somewhere in the scan have the same canonical path, the names
    that are properties of [Object.prototype] apart: those are never
    recorded and never counted. *)
Theorem verifySearchResults_zero_iff_single_location :
  forall (H : Host) (fuel : nat) (providedOptions options : JsObject)
         (results : SearchResults),
    mergeLinkingOptionsAsync H fuel providedOptions = Ok options ->
    findModulesAsync H fuel providedOptions = Ok results ->
    (verifySearchResults results = 0 <->
     forall n sp1 p1 rev1 sp2 p2 rev2,
       inheritedKey n = false ->
       In (sp1, p1) (scanOrder H (searchPathsOf options)) ->
       In (sp2, p2) (scanOrder H (searchPathsOf options)) ->
       discover H options sp1 p1 = Ok (Some (n, rev1)) ->
       discover H options sp2 p2 = Ok (Some (n, rev2)) ->
       path rev1 = path rev2).
Proof.
  intros H fuel provided options results Hmerge Hfind.
  apply findModulesAsync_unfold in Hfind as (options' & cs & Hmerge' & Hall & ->).
  assert (options' = options) by congruence. subst options'.
  rewrite verifySearchResults_zero_fold. split.
  - intros Hsame n sp1 p1 rev1 sp2 p2 rev2 Hplain Hv1 Hv2 Hd1 Hd2.
    destruct (Forall2_In_l _ _ _ _ Hall Hv1) as (c1 & Hc1 & Hdc1).
    destruct (Forall2_In_l _ _ _ _ Hall Hv2) as (c2 & Hc2 & Hdc2).
    unfold discovered in *. simpl in *.
    rewrite Hd1 in Hdc1. rewrite Hd2 in Hdc2.
    inversion Hdc1. inversion Hdc2. subst c1 c2.
    now apply (Hsame n rev1 rev2).
  - intros Hsame n rev1 rev2 Hplain Hc1 Hc2.
    destruct (Forall2_In_r _ _ _ _ Hall Hc1) as ([sp1 p1] & Hv1 & Hd1).
    destruct (Forall2_In_r _ _ _ _ Hall Hc2) as ([sp2 p2] & Hv2 & Hd2).
    now apply (Hsame n sp1 p1 rev1 sp2 p2 rev2).
Qed.

Lemma verifySearchResults_zero_iff_single_location_witness :
  (verifySearchResults threeResults = 0 <->
   forall n sp1 p1 rev1 sp2 p2 rev2,
     inheritedKey n = false ->
     In (sp1, p1) (scanOrder Demo.threeCopies (searchPathsOf (plain Demo.threeOptions))) ->
     In (sp2, p2) (scanOrder Demo.threeCopies (searchPathsOf (plain Demo.threeOptions))) ->
     discover Demo.threeCopies (plain Demo.threeOptions) sp1 p1 = Ok (Some (n, rev1)) ->
     discover Demo.threeCopies (plain Demo.threeOptions) sp2 p2 = Ok (Some (n, rev2)) ->
     path rev1 = path rev2) /\
  (verifySearchResults [] = 0 <->
   forall n sp1 p1 rev1 sp2 p2 rev2,
     inheritedKey n = false ->
     In (sp1, p1)
        (scanOrder inheritedNameCopies (searchPathsOf (plain inheritedNameOptions))) ->
     In (sp2, p2)
        (scanOrder inheritedNameCopies (searchPathsOf (plain inheritedNameOptions))) ->
     discover inheritedNameCopies (plain inheritedNameOptions) sp1 p1
     = Ok (Some (n, rev1)) ->
     discover inheritedNameCopies (plain inheritedNameOptions) sp2 p2
     = Ok (Some (n, rev2)) ->
     path rev1 = path rev2).
Proof.
  split.
  - apply (verifySearchResults_zero_iff_single_location Demo.threeCopies 1
             (plain Demo.threeOptions) (plain Demo.threeOptions) threeResults);
      vm_compute; reflexivity.
  - apply (verifySearchResults_zero_iff_single_location inheritedNameCopies 1
             (plain inheritedNameOptions) (plain inheritedNameOptions) []);
      vm_compute; reflexivity.
Defined.

(** *** The config path kept for a directory, in general *)

(** X4. The reduce over the config paths found in a search path returns
    unless a directory is named as a property of [Object.prototype], and
    then it throws a TypeError.  Of the paths found (none of them empty) it
    keeps only paths that were found, and for the directory of every path
    found it keeps a path of that directory whose priority is at least that
    of the path found. *)
Theorem uniqueConfigPaths_keeps_highest :
  forall (H : Host) (paths : list string),
    Forall (fun q => q <> EmptyString) paths ->
    ((forall p, In p paths -> inheritedKey (pathDirname H p) = false) ->
     exists kept,
       uniqueConfigPaths H paths = Ok kept /\
       (forall config, In config kept -> In config paths) /\
       (forall p, In p paths ->
                  exists config,
                    In config kept /\
                    pathDirname H config = pathDirname H p /\
                    (configPriority H p <= configPriority H config)%Z)) /\
    ((exists p, In p paths /\ inheritedKey (pathDirname H p) = true) ->
     uniqueConfigPaths H paths
     = Throw (TypeError "The path argument must be of type string")).
Proof.
  intros H paths Hne. split; [|apply uniqueConfigPaths_throws].
  intros Hplain.
  destruct (uniqueConfigPaths_returns H paths Hplain) as [kept Hkept].
  exists kept. split; auto.
  destruct (uniqueConfigPaths_Ok H paths kept Hkept) as (acc & Hrun & [Hnd Hfiled] & Hin).
  split.
  - intros config Hc. apply Hin in Hc. apply get_In in Hc.
    now destruct (Hfiled _ _ Hc).
  - intros p Hp.
    destruct (dominated_fold H paths [] acc p Hne Hrun (or_intror Hp))
      as (v & Hget & _ & Hle).
    destruct (Hfiled _ _ (get_In _ _ _ Hget)) as [Hdir _].
    exists v. repeat split; auto.
    apply Hin. now rewrite Hdir.
Qed.

Lemma uniqueConfigPaths_keeps_highest_witness :
  (exists kept,
      uniqueConfigPaths Demo.project
        (glob Demo.project configPatterns "/app/node_modules") = Ok kept /\
      (forall config, In config kept ->
                      In config (glob Demo.project configPatterns "/app/node_modules")) /\
      (forall p,
          In p (glob Demo.project configPatterns "/app/node_modules") ->
          exists config,
            In config kept /\
            pathDirname Demo.project config = pathDirname Demo.project p /\
            (configPriority Demo.project p <= configPriority Demo.project config)%Z)) /\
  uniqueConfigPaths Demo.project ["foo/unimodule.json"; "constructor/unimodule.json"]
  = Throw (TypeError "The path argument must be of type string").
Proof.
  split.
  - apply (uniqueConfigPaths_keeps_highest Demo.project
             (glob Demo.project configPatterns "/app/node_modules")).
    + vm_compute. repeat constructor; discriminate.
    + intros p Hp. vm_compute in Hp.
      repeat (destruct Hp as [<-|Hp]; [reflexivity|]). destruct Hp.
  - apply (uniqueConfigPaths_keeps_highest Demo.project
             ["foo/unimodule.json"; "constructor/unimodule.json"]).
    + repeat constructor; discriminate.
    + exists "constructor/unimodule.json". split; [simpl; auto|reflexivity].
Defined.

(** *** When the scan fails and when it returns *)

(** The body of the two nested loops, on one (search path, config path)
    pair. *)
Definition visit (H : Host) (options : JsObject) (results : SearchResults)
           (v : string * string) : Outcome SearchResults :=
  processPackage H options (fst v) results (snd v).

Lemma forEach_app {A S : Type} (body : S -> A -> Outcome S) l1 l2 s :
  forEach body (l1 ++ l2) s = bind (forEach body l1 s) (forEach body l2).
Proof.
  revert s. induction l1 as [|x l1 IH]; simpl; intros s; auto.
  destruct (body s x); simpl; auto.
Qed.

Lemma forEach_visit_pairs H options sp ps r :
  forEach (visit H options) (map (pair sp) ps) r
  = forEach (processPackage H options sp) ps r.
Proof.
  revert r. induction ps as [|p ps IHp]; simpl; intros r; auto.
  unfold visit at 1. simpl. destruct (processPackage H options sp r p); simpl; auto.
Qed.

Lemma forEach_scan_flat H options searchPaths results :
  scannable H searchPaths ->
  forEach (scanSearchPath H options) searchPaths results
  = forEach (visit H options) (scanOrder H searchPaths) results.
Proof.
  revert results. induction searchPaths as [|sp sps IH]; simpl; intros results Hscan; auto.
  rewrite forEach_app. unfold scanSearchPath at 1.
  destruct (Hscan sp (or_introl eq_refl)) as [kept Hkept].
  rewrite (keptConfigPaths_Ok H _ kept Hkept), Hkept. cbn [bind].
  rewrite forEach_visit_pairs.
  destruct (forEach (processPackage H options sp) kept results); simpl; auto.
  apply IH. intros sp' Hsp'. apply Hscan. right. exact Hsp'.
Qed.

Lemma visit_outcome H options results v :
  visit H options results v
  = bind (discover H options (fst v) (snd v)) (fun c => Ok (record results c)).
Proof.
  unfold visit, processPackage.
  destruct (discover H options (fst v) (snd v)) as [[[n rev]|]| |]; reflexivity.
Qed.

Lemma forEach_visit_all_ok H options visits results :
  (forall v, In v visits -> exists c, discover H options (fst v) (snd v) = Ok c) ->
  exists candidates,
    Forall2 (discovered H options) visits candidates /\
    forEach (visit H options) visits results
    = Ok (fold_left record candidates results).
Proof.
  revert results. induction visits as [|v vs IH]; simpl; intros results Hok.
  - exists []. split; auto.
  - destruct (Hok v (or_introl eq_refl)) as [c Hc].
    rewrite visit_outcome, Hc. simpl.
    destruct (IH (record results c)) as (cs & Hall & Hrun).
    { intros w Hw. apply Hok. auto. }
    exists (c :: cs). split; [constructor; auto|exact Hrun].
Qed.

(** X5. [findModulesAsync] stops at the first failure in scan order.  When
    the search paths before a search path are scanned without error, the
    call throws what the reduce of that search path throws (a directory
    named as a property of [Object.prototype]); and when the reduce returns,
    the config paths before one of them are read without error and reading
    that one throws (a broken link, a malformed config, a missing manifest,
    an [exclude] or [platforms] without [includes]), the call throws that
    error.  Either way it returns no results. *)
Theorem findModulesAsync_fails_at_first_error :
  forall (H : Host) (fuel : nat) (providedOptions options : JsObject)
         (earlier later : list string) (searchPath : string),
    mergeLinkingOptionsAsync H fuel providedOptions = Ok options ->
    searchPathsOf options = earlier ++ searchPath :: later ->
    scannable H earlier ->
    (forall v, In v (scanOrder H earlier) ->
               exists c, discover H options (fst v) (snd v) = Ok c) ->
    (forall e,
        uniqueConfigPaths H (glob H configPatterns searchPath) = Throw e ->
        findModulesAsync H fuel providedOptions = Throw e) /\
    (forall before configPath after e,
        uniqueConfigPaths H (glob H configPatterns searchPath)
        = Ok (before ++ configPath :: after) ->
        (forall p, In p before -> exists c, discover H options searchPath p = Ok c) ->
        discover H options searchPath configPath = Throw e ->
        findModulesAsync H fuel providedOptions = Throw e).
Proof.
  intros H fuel provided options earlier later sp Hmerge Hsplit Hscan Hok.
  assert (Hrun : findModulesAsync H fuel provided
                 = bind (forEach (visit H options) (scanOrder H earlier) [])
                        (forEach (scanSearchPath H options) (sp :: later))).
  { unfold findModulesAsync. rewrite Hmerge. cbn [bind].
    rewrite Hsplit, forEach_app. now rewrite forEach_scan_flat. }
  destruct (forEach_visit_all_ok H options _ [] Hok) as (cs & _ & Hearlier).
  rewrite Hearlier in Hrun. cbn [bind forEach] in Hrun. split.
  - intros e Hthrow. rewrite Hrun. unfold scanSearchPath at 1.
    now rewrite Hthrow.
  - intros before p after e Hkept Hbefore Hthrow. rewrite Hrun.
    unfold scanSearchPath at 1. rewrite Hkept. cbn [bind].
    rewrite forEach_app.
    assert (Hvisits : forall v, In v (map (pair sp) before) ->
                                exists c, discover H options (fst v) (snd v) = Ok c).
    { intros v Hv. apply in_map_iff in Hv as (q & <- & Hq). simpl. auto. }
    destruct (forEach_visit_all_ok H options _ (fold_left record cs []) Hvisits)
      as (cs' & _ & Hrun').
    rewrite forEach_visit_pairs in Hrun'. rewrite Hrun'. cbn [bind forEach].
    unfold processPackage. rewrite Hthrow. reflexivity.
Qed.

Lemma fold_record_none candidates results :
  (forall c, In c candidates ->
             c = None \/ exists n rev, c = Some (n, rev) /\ inheritedKey n = true) ->
  (forall k, inheritedKey k = true -> get k results = None) ->
  fold_left record candidates results = results.
Proof.
  revert results. induction candidates as [|c cs IH]; simpl; intros results Hnone Hplain; auto.
  assert (Hstep : record results c = results).
  { destruct (Hnone c (or_introl eq_refl)) as [->|(n & rev & -> & Hi)]; auto.
    simpl. destruct (recordRevision_cases n rev results)
      as [(_ & Hp & _) | [(f & ds & Hg & _) | [(f & Hg & _) | (_ & _ & Hr)]]];
      auto; try congruence; rewrite (Hplain n Hi) in Hg; discriminate. }
  rewrite Hstep. apply IH; auto.
Qed.

(** X6. When the options merge, no directory found in a search path is
    named as a property of [Object.prototype], and every pair visited is
    read without error, [findModulesAsync] returns results.  They are empty
    exactly when every package read fails a test or has such a name, in
    particular when no config path is found. *)
Theorem findModulesAsync_returns :
  forall (H : Host) (fuel : nat) (providedOptions options : JsObject),
    mergeLinkingOptionsAsync H fuel providedOptions = Ok options ->
    (forall searchPath p,
        In searchPath (searchPathsOf options) ->
        In p (glob H configPatterns searchPath) ->
        inheritedKey (pathDirname H p) = false) ->
    (forall v, In v (scanOrder H (searchPathsOf options)) ->
               exists c, discover H options (fst v) (snd v) = Ok c) ->
    exists results,
      findModulesAsync H fuel providedOptions = Ok results /\
      (results = [] <->
       forall v, In v (scanOrder H (searchPathsOf options)) ->
                 discover H options (fst v) (snd v) = Ok None \/
                 exists n rev,
                   discover H options (fst v) (snd v) = Ok (Some (n, rev)) /\
                   inheritedKey n = true).
Proof.
  intros H fuel provided options Hmerge Hdirs Hok.
  pose proof (scannable_plain_directories H _ Hdirs) as Hscan.
  destruct (forEach_visit_all_ok H options _ [] Hok) as (cs & Hall & Hrun).
  exists (fold_left record cs []). split.
  - unfold findModulesAsync. rewrite Hmerge. cbn [bind].
    now rewrite forEach_scan_flat.
  - split.
    + intros Hempty v Hv.
      destruct (Forall2_In_l _ _ _ _ Hall Hv) as (c & Hc & Hd).
      unfold discovered in Hd. rewrite Hd.
      destruct c as [[n rev]|]; auto. right. exists n, rev. split; auto.
      destruct (inheritedKey n) eqn:Ei; auto. exfalso.
      assert (Hrec : recordedAt (fold_left record cs []) n (path rev)).
      { apply (recordedAt_fold cs [] n (path rev) allTracked_empty Ei). right. eauto. }
      destruct Hrec as (r & Hget & _). rewrite Hempty in Hget. discriminate.
    + intros Hnone. apply fold_record_none; [|reflexivity]. intros c Hc.
      destruct (Forall2_In_r _ _ _ _ Hall Hc) as (v & Hv & Hd).
      unfold discovered in Hd.
      destruct (Hnone v Hv) as [Hn|(n & rev & Hn & Hi)]; rewrite Hn in Hd;
        inversion Hd; eauto.
Qed.

Definition brokenBar (p : string) : Outcome JVal :=
  if String.eqb p "/app/node_modules/bar/unimodule.json"
  then Throw (HostError "Unexpected token in JSON")
  else requireJson Demo.project p.

(** The project with a package directory named [constructor] in its
    second search path. *)
Definition inheritedDirectory : Host :=
  Demo.tableHost "/app"
    [("/app", "/app/package.json")]
    [("/app/node_modules", ["foo/expo-module.config.json"]);
     ("/app/vendor", ["constructor/unimodule.json"])]
    []
    [("/app/package.json", projectManifest);
     ("/app/node_modules/foo/expo-module.config.json",
      Demo.platformsOf ["ios"; "android"]);
     ("/app/vendor/constructor/unimodule.json", Demo.platformsOf ["ios"])]
    [("/app/node_modules/foo/package.json", mkPackageJson "foo" "1.0.0");
     ("/app/vendor/constructor/package.json", mkPackageJson "constructor" "1.0.0")]
    [("./platforms/ios", Demo.podLinking)].

Lemma findModulesAsync_fails_at_first_error_witness :
  findModulesAsync (withRequireJson Demo.project brokenBar) 3 (plain Demo.iosOptions)
  = Throw (HostError "Unexpected token in JSON") /\
  findModulesAsync inheritedDirectory 3 (plain Demo.iosOptions)
  = Throw (TypeError "The path argument must be of type string").
Proof.
  split.
  - destruct (findModulesAsync_fails_at_first_error
                (withRequireJson Demo.project brokenBar) 3 (plain Demo.iosOptions)
                (plain projectOptions) [] ["/app/vendor"] "/app/node_modules")
      as [_ Hread].
    + vm_compute. reflexivity.
    + vm_compute. reflexivity.
    + intros sp [].
    + intros v [].
    + apply (Hread ["foo/expo-module.config.json"] "bar/unimodule.json"
               ["@scope/baz/expo-module.config.json"]).
      * vm_compute. reflexivity.
      * intros p [<-|[]]. eexists. vm_compute. reflexivity.
      * vm_compute. reflexivity.
  - destruct (findModulesAsync_fails_at_first_error inheritedDirectory 3
                (plain Demo.iosOptions) (plain projectOptions)
                ["/app/node_modules"] [] "/app/vendor") as [Hreduce _].
    + vm_compute. reflexivity.
    + vm_compute. reflexivity.
    + intros sp [<-|[]]. eexists. vm_compute. reflexivity.
    + intros v Hv. vm_compute in Hv. destruct Hv as [<-|[]].
      eexists. vm_compute. reflexivity.
    + apply Hreduce. vm_compute. reflexivity.
Defined.

Lemma findModulesAsync_returns_witness :
  exists results,
    findModulesAsync Demo.project 3 (plain Demo.iosOptions) = Ok results /\
    (results = [] <->
     forall v, In v (scanOrder Demo.project (searchPathsOf (plain projectOptions))) ->
               discover Demo.project (plain projectOptions) (fst v) (snd v) = Ok None \/
               exists n rev,
                 discover Demo.project (plain projectOptions) (fst v) (snd v)
                 = Ok (Some (n, rev)) /\
                 inheritedKey n = true).
Proof.
  apply (findModulesAsync_returns Demo.project 3 (plain Demo.iosOptions)
           (plain projectOptions)).
  - vm_compute. reflexivity.
  - intros sp p Hsp Hp. vm_compute in Hsp.
    destruct Hsp as [<-|[<-|[]]]; vm_compute in Hp;
      repeat (destruct Hp as [<-|Hp]; [reflexivity|]); destruct Hp.
  - intros v Hv. vm_compute in Hv.
    repeat (destruct Hv as [<-|Hv]; [eexists; vm_compute; reflexivity|]).
    destruct Hv.
Defined.

(** *** Merging options that are already merged *)

Lemma writeProp_keys_NoDup t k v :
  NoDup (keys (ownOf t)) -> NoDup (keys (ownOf (writeProp t k v))).
Proof.
  intros Hnd. unfold writeProp. destruct (get k (ownOf t)); simpl.
  - now apply set_keys_NoDup.
  - destruct (_ && _); simpl; auto. now apply set_keys_NoDup.
Qed.

Lemma assignProps_keys_NoDup target src :
  NoDup (keys (ownOf target)) -> NoDup (keys (ownOf (assignProps target src))).
Proof.
  unfold assignProps. revert target.
  induction src as [|[k v] src IH]; simpl; intros target Hnd; auto.
  apply IH. now apply writeProp_keys_NoDup.
Qed.

Lemma objectAssign_keys_NoDup sources target :
  NoDup (keys (ownOf target)) -> NoDup (keys (ownOf (objectAssign target sources))).
Proof.
  unfold objectAssign. revert target.
  induction sources as [|s sources IH]; simpl; intros target Hnd; auto.
  apply IH. now apply assignProps_keys_NoDup.
Qed.

Lemma keys_entries_In {V : Type} (o : Obj V) k : In k (keys (entries o)) <-> In k (keys o).
Proof.
  assert (Hp : Permutation (keys (entries o)) (keys o))
    by (apply Permutation_map, entries_perm).
  split; apply Permutation_in; [|symmetry]; exact Hp.
Qed.

Lemma searchPathsOf_strings options searchPaths :
  readProp options "searchPaths" = JArr (map JStr searchPaths) ->
  searchPathsOf options = searchPaths.
Proof.
  unfold searchPathsOf. intros ->.
  induction searchPaths as [|p ps IH]; simpl; auto. now rewrite IH.
Qed.

Lemma resolveEach_fixed H cwd searchPaths :
  (forall p, In p searchPaths -> pathResolve H cwd p = p) ->
  resolveEach H cwd (map JStr searchPaths) = Ok searchPaths.
Proof.
  induction searchPaths as [|p ps IH]; simpl; intros Hfix; auto.
  rewrite IH by auto. simpl. now rewrite Hfix by auto.
Qed.

Lemma resolveEach_length H cwd items l :
  resolveEach H cwd items = Ok l -> List.length l = List.length items.
Proof.
  revert l. induction items as [|x items IH]; simpl; intros l.
  - now intros [= <-].
  - destruct x; try discriminate.
    destruct (resolveEach H cwd items) as [r| |]; simpl; try discriminate.
    intros [= <-]. simpl. now rewrite (IH r).
Qed.

(** An empty list of search paths can only be the default one. *)
Lemma resolveSearchPathsAsync_nil H fuel v cwd :
  resolveSearchPathsAsync H fuel v cwd = Ok [] ->
  findDefaultPathsAsync H fuel cwd = Ok [].
Proof.
  unfold resolveSearchPathsAsync.
  destruct (truthy v && greaterThanZero H (getPropOpt v "length")) eqn:Ec; auto.
  destruct v; try discriminate.
  intros Hres. apply resolveEach_length in Hres.
  destruct items; [|discriminate]. apply andb_prop in Ec as [_ Ec].
  discriminate.
Qed.

Lemma resolveSearchPathsAsync_fixed H fuel cwd searchPaths :
  (forall p, In p searchPaths -> pathResolve H cwd p = p) ->
  (searchPaths = [] -> findDefaultPathsAsync H fuel cwd = Ok []) ->
  resolveSearchPathsAsync H fuel (JArr (map JStr searchPaths)) cwd = Ok searchPaths.
Proof.
  intros Hfix Hnil. destruct searchPaths as [|p ps].
  - unfold resolveSearchPathsAsync. simpl. now apply Hnil.
  - unfold resolveSearchPathsAsync.
    replace (truthy (JArr (map JStr (p :: ps))) &&
             greaterThanZero H (getPropOpt (JArr (map JStr (p :: ps))) "length"))
      with true by reflexivity.
    now apply resolveEach_fixed.
Qed.

Lemma discover_same_options H options options' searchPath configPath :
  readProp options' "exclude" = readProp options "exclude" ->
  readProp options' "platform" = readProp options "platform" ->
  discover H options' searchPath configPath = discover H options searchPath configPath.
Proof.
  intros Hex Hpf. unfold discover, skipPackage. now rewrite Hex, Hpf.
Qed.

Lemma orElse_absorb {A : Type} (a b : option A) :
  orElse (orElse a b) b = orElse a b.
Proof. destruct a, b; reflexivity. Qed.

(** X7. Options that [mergeLinkingOptionsAsync] has merged can be merged
    again without change, key by key and prototype included, and
    [findModulesAsync] returns the same on them as on the provided options
    they come from, when those name a platform, have distinct keys, none of
    them [__proto__], and [path.resolve] leaves the resolved search paths as
    they are. *)
Theorem mergeLinkingOptionsAsync_idempotent :
  forall (H : Host) (fuel : nat) (providedOptions : Obj JVal) (final : JsObject),
    NoDup (keys providedOptions) ->
    get "platform" providedOptions <> None ->
    ~ In "__proto__" (keys providedOptions) ->
    mergeLinkingOptionsAsync H fuel (plain providedOptions) = Ok final ->
    (forall p, In p (searchPathsOf final) -> pathResolve H (processCwd H) p = p) ->
    (exists final',
        mergeLinkingOptionsAsync H fuel final = Ok final' /\
        (forall k, get k (ownOf final') = get k (ownOf final)) /\
        protoOf final' = protoOf final) /\
    findModulesAsync H fuel final = findModulesAsync H fuel (plain providedOptions).
Proof.
  intros H fuel provided final Hnd Hpf Hnoproto Hmerge Hfix.
  destruct (mergeLinkingOptionsAsync_inversion _ _ _ _ Hmerge)
    as (pj & expo & sps & Hroot & Hexpo & Hres & Hfinal).
  cbv zeta in Hres, Hfinal. simpl ownOf in Hres, Hfinal.
  set (base := getPropOpt expo "autolinking") in *.
  set (platform := requestedSection base (readProp (plain provided) "platform")) in *.
  set (sigma := assignProps (assignProps emptyObject (ownProps base)) (ownProps platform)).
  set (merged := objectAssign emptyObject [base; platform; JObj provided]) in *.
  set (X := JArr (map JStr sps)) in *.
  assert (Hsp : "searchPaths" <> "__proto__") by discriminate.
  (* the first merge *)
  destruct (assignProps_settled sigma (entries provided)) as [Hproto_m Hget_m].
  { intros Hin. exfalso. apply Hnoproto. now apply keys_entries_In. }
  change (assignProps sigma (entries provided)) with merged in Hproto_m, Hget_m.
  rewrite (writeProp_ordinary merged "searchPaths" X Hsp) in Hfinal.
  assert (Hown_sp : get "searchPaths" (ownOf final) = Some X)
    by (subst final; apply get_set_same).
  assert (Hown : forall k, k <> "searchPaths" ->
                           get k (ownOf final) = get k (ownOf merged)).
  { intros k Hk. subst final. simpl. apply get_set_other. congruence. }
  assert (Hproto : protoOf final = protoOf sigma) by (subst final; exact Hproto_m).
  assert (Hndf : NoDup (keys (ownOf final))).
  { subst final. simpl. apply set_keys_NoDup.
    apply objectAssign_keys_NoDup. constructor. }
  assert (Hplat : readProp final "platform" = readProp (plain provided) "platform").
  { rewrite readProp_plain.
    destruct (get "platform" provided) as [v|] eqn:Ev; [|contradiction].
    apply readProp_own. rewrite Hown by discriminate. rewrite Hget_m.
    change (lastBinding "platform" (entries provided))
      with (copied "platform" (JObj provided)).
    rewrite (copied_object "platform" provided Hnd), Ev. reflexivity. }
  assert (Hread_sp : readProp final "searchPaths" = X) by (now apply readProp_own).
  assert (Hpaths : searchPathsOf final = sps) by (now apply searchPathsOf_strings).
  (* the second merge *)
  set (merged2 := objectAssign emptyObject [base; platform; JObj (ownOf final)]).
  destruct (assignProps_settled sigma (entries (ownOf final))) as [Hproto2 Hget2].
  { intros Hin. apply (proj1 (keys_entries_In _ _)) in Hin.
    apply (proj2 (get_Some_keys _ _)) in Hin.
    rewrite Hown, Hget_m in Hin by discriminate.
    assert (Hlb : lastBinding "__proto__" (entries provided) = None).
    { apply lastBinding_keys. intros Hk. apply Hnoproto. now apply keys_entries_In. }
    now rewrite Hlb in Hin. }
  change (assignProps sigma (entries (ownOf final))) with merged2 in Hproto2, Hget2.
  assert (Hsame2 : forall k, get k (ownOf merged2) = get k (ownOf final)).
  { intros k. rewrite Hget2.
    change (lastBinding k (entries (ownOf final)))
      with (copied k (JObj (ownOf final))).
    rewrite (copied_object k (ownOf final) Hndf).
    destruct (string_dec k "searchPaths") as [->|Hk].
    - now rewrite Hown_sp.
    - rewrite (Hown k Hk), Hget_m. apply orElse_absorb. }
  assert (Hres2 : resolveSearchPathsAsync H fuel (readProp merged2 "searchPaths")
                    (processCwd H) = Ok sps).
  { rewrite (readProp_ext merged2 final "searchPaths" (Hsame2 _))
      by (now rewrite Hproto2, Hproto).
    rewrite Hread_sp. apply resolveSearchPathsAsync_fixed.
    - rewrite <- Hpaths. exact Hfix.
    - intros ->. now apply (resolveSearchPathsAsync_nil H fuel _ _ Hres). }
  assert (Hmerge2 : mergeLinkingOptionsAsync H fuel final
                    = Ok (writeProp merged2 "searchPaths" X)).
  { rewrite (mergeLinkingOptionsAsync_eval H fuel final pj expo Hroot Hexpo).
    fold base. rewrite Hplat. fold platform. fold merged2. now rewrite Hres2. }
  assert (Hsame : forall k, get k (ownOf (writeProp merged2 "searchPaths" X))
                            = get k (ownOf final)).
  { intros k. rewrite writeProp_ordinary by exact Hsp. simpl.
    destruct (string_dec k "searchPaths") as [->|Hk].
    - now rewrite get_set_same, Hown_sp.
    - rewrite get_set_other by congruence. apply Hsame2. }
  assert (Hproto' : protoOf (writeProp merged2 "searchPaths" X) = protoOf final).
  { rewrite writeProp_ordinary by exact Hsp. simpl. now rewrite Hproto2, Hproto. }
  split.
  - eexists. split; [exact Hmerge2|]. split; [exact Hsame|exact Hproto'].
  - unfold findModulesAsync. rewrite Hmerge2, Hmerge. cbn [bind].
    rewrite (searchPathsOf_strings _ sps)
      by (rewrite (readProp_ext _ final "searchPaths" (Hsame _) Hproto');
          exact Hread_sp).
    rewrite Hpaths. apply forEach_ext. intros sp _ results. unfold scanSearchPath.
    destruct (uniqueConfigPaths H (glob H configPatterns sp)); cbn [bind]; auto.
    apply forEach_ext. intros p _ results'. unfold processPackage.
    now rewrite (discover_same_options H final _ sp p
                   (readProp_ext _ final "exclude" (Hsame _) Hproto')
                   (readProp_ext _ final "platform" (Hsame _) Hproto')).
Qed.

Lemma mergeLinkingOptionsAsync_idempotent_witness :
  (exists final',
      mergeLinkingOptionsAsync Demo.project 3 (plain projectOptions) = Ok final' /\
      (forall k, get k (ownOf final') = get k projectOptions) /\
      protoOf final' = ObjectPrototype) /\
  findModulesAsync Demo.project 3 (plain projectOptions)
  = findModulesAsync Demo.project 3 (plain Demo.iosOptions).
Proof.
  apply (mergeLinkingOptionsAsync_idempotent Demo.project 3 Demo.iosOptions
           (plain projectOptions)).
  - repeat constructor. simpl. tauto.
  - discriminate.
  - simpl. intros [Heq|[]]. discriminate.
  - vm_compute. reflexivity.
  - intros p Hp. vm_compute in Hp. destruct Hp as [<-|[<-|[]]]; reflexivity.
Defined.

(** With a [__proto__] among the provided options the two calls differ:
    the first merge turns it into the prototype, through which [exclude] is
    read, and the second merge copies own properties only. *)
Definition protoOptions : Obj JVal :=
  Demo.threeOptions ++ [("__proto__", JObj [("exclude", JArr [JStr "bar"])])].

Example mergeLinkingOptionsAsync_proto_not_idempotent :
  exists final,
    mergeLinkingOptionsAsync Demo.threeCopies 1 (plain protoOptions) = Ok final /\
    findModulesAsync Demo.threeCopies 1 (plain protoOptions) = Ok [] /\
    findModulesAsync Demo.threeCopies 1 final = Ok threeResults.
Proof. eexists. repeat split; vm_compute; reflexivity. Qed.

(** *** A [__proto__] key in the manifest *)

Lemma assignProps_proto target src inherited :
  NoDup (keys src) ->
  In ("__proto__", JObj inherited) src ->
  get "__proto__" (ownOf target) = None ->
  reachesProtoSetter (protoOf target) = true ->
  protoOf (assignProps target src) = ValuePrototype (JObj inherited) /\
  get "__proto__" (ownOf (assignProps target src)) = None.
Proof.
  unfold assignProps. revert target.
  induction src as [|[k v] src IH]; simpl; intros target Hnd Hin Hnone Hreach;
    [destruct Hin|].
  inversion Hnd as [|? ? Hfresh Hnd']. subst.
  destruct (string_dec k "__proto__") as [->|Hk].
  - assert (v = JObj inherited).
    { destruct Hin as [Heq|Hin]; [congruence|]. exfalso. apply Hfresh.
      apply in_map_iff. exists ("__proto__", JObj inherited). auto. }
    subst v.
    assert (Hstep : writeProp target "__proto__" (JObj inherited)
                    = mkObject (ownOf target) (ValuePrototype (JObj inherited))).
    { unfold writeProp. rewrite Hnone, Hreach. reflexivity. }
    rewrite Hstep.
    destruct (assignProps_settled
                (mkObject (ownOf target) (ValuePrototype (JObj inherited))) src)
      as [Hproto Hget]; [intros Hin'; contradiction|].
    unfold assignProps in Hproto, Hget. rewrite Hproto, Hget. simpl.
    split; auto. rewrite Hnone.
    now rewrite (proj2 (lastBinding_keys "__proto__" src) Hfresh).
  - rewrite (writeProp_ordinary target k v Hk). apply IH; auto.
    + destruct Hin as [Heq|Hin]; [congruence|exact Hin].
    + simpl. now rewrite get_set_other.
Qed.

(** X18. An own [__proto__] key of the manifest's autolinking section,
    bound to an object, is not a key of the merged options: [Object.assign]
    makes that object their prototype.  A key that none of the layers has
    (other than the names of [Object.prototype]) is then read from it, so an
    [exclude] or [searchPaths] nested under [__proto__] takes effect. *)
Theorem mergeLinkingOptionsAsync_proto_key :
  forall (H : Host) (fuel : nat) (providedOptions : Obj JVal)
         (packageJson expo : JVal) (fields inherited : Obj JVal) (final : JsObject),
    rootManifest H = Ok packageJson ->
    getProp packageJson "expo" = Ok expo ->
    getPropOpt expo "autolinking" = JObj fields ->
    NoDup (keys fields) ->
    get "__proto__" fields = Some (JObj inherited) ->
    (let requested := orUndef (get "platform" providedOptions) in
     truthy requested = true ->
     copied "__proto__" (getPropOpt (JObj fields) (toString requested)) = None) ->
    ~ In "__proto__" (keys providedOptions) ->
    mergeLinkingOptionsAsync H fuel (plain providedOptions) = Ok final ->
    protoOf final = ValuePrototype (JObj inherited) /\
    get "__proto__" (ownOf final) = None /\
    forall k, inheritedKey k = false -> get k (ownOf final) = None ->
              readProp final k = orUndef (get k inherited).
Proof.
  intros H fuel provided pj expo fields inherited final Hroot Hexpo Hbase Hnd Hproto
         Hsection Hnoproto Hmerge.
  destruct (mergeLinkingOptionsAsync_inversion _ _ _ _ Hmerge)
    as (pj' & expo' & sps & Hroot' & Hexpo' & _ & Hfinal).
  assert (pj' = pj) by congruence. subst pj'.
  assert (expo' = expo) by congruence. subst expo'.
  cbv zeta in Hfinal. simpl ownOf in Hfinal. rewrite Hbase, readProp_plain in Hfinal.
  set (platform := requestedSection (JObj fields) (orUndef (get "platform" provided))) in *.
  assert (Hplat : ~ In "__proto__" (keys (ownProps platform))).
  { apply lastBinding_keys. unfold platform, requestedSection.
    destruct (truthy (orUndef (get "platform" provided))) eqn:Et; [|reflexivity].
    now apply Hsection. }
  destruct (assignProps_proto emptyObject (ownProps (JObj fields)) inherited)
    as [Hp1 Hg1]; try reflexivity.
  { eapply Permutation_NoDup; [|exact Hnd]. apply Permutation_map. symmetry.
    apply entries_perm. }
  { apply entries_In. now apply get_In. }
  destruct (assignProps_settled (assignProps emptyObject (ownProps (JObj fields)))
              (ownProps platform)) as [Hp2 Hg2]; [intros Hin; contradiction|].
  destruct (assignProps_settled
              (assignProps (assignProps emptyObject (ownProps (JObj fields)))
                 (ownProps platform))
              (ownProps (JObj provided))) as [Hp3 Hg3].
  { intros Hin. exfalso. apply Hnoproto. now apply keys_entries_In. }
  assert (Hsp : "searchPaths" <> "__proto__") by discriminate.
  rewrite (writeProp_ordinary _ "searchPaths" _ Hsp) in Hfinal.
  unfold objectAssign in Hfinal. cbn [fold_left] in Hfinal.
  assert (Hprotof : protoOf final = ValuePrototype (JObj inherited)).
  { subst final. cbn [protoOf]. now rewrite Hp3, Hp2, Hp1. }
  split; [exact Hprotof|]. split.
  - subst final. cbn [ownOf]. rewrite get_set_other by congruence.
    rewrite Hg3, Hg2, Hg1.
    rewrite (proj2 (lastBinding_keys "__proto__" (ownProps (JObj provided)))).
    + now rewrite (proj2 (lastBinding_keys "__proto__" (ownProps platform)) Hplat).
    + intros Hin. apply Hnoproto. now apply keys_entries_In.
  - intros k _ Hnone. unfold readProp. rewrite Hnone, Hprotof. reflexivity.
Qed.

Definition protoManifest : JVal :=
  JObj [("expo", JObj [("autolinking",
          JObj [("__proto__", JObj [("exclude", JArr [JStr "bar"])])])])].

Lemma mergeLinkingOptionsAsync_proto_key_witness :
  exists final,
    mergeLinkingOptionsAsync (withRequireJson Demo.project (fun _ => Ok protoManifest)) 3
      (plain Demo.iosOptions) = Ok final /\
    protoOf final = ValuePrototype (JObj [("exclude", JArr [JStr "bar"])]) /\
    get "__proto__" (ownOf final) = None /\
    get "exclude" (ownOf final) = None /\
    readProp final "exclude" = JArr [JStr "bar"].
Proof.
  eexists. split; [vm_compute; reflexivity|].
  destruct (mergeLinkingOptionsAsync_proto_key
              (withRequireJson Demo.project (fun _ => Ok protoManifest)) 3
              Demo.iosOptions protoManifest
              (JObj [("autolinking",
                      JObj [("__proto__", JObj [("exclude", JArr [JStr "bar"])])])])
              [("__proto__", JObj [("exclude", JArr [JStr "bar"])])]
              [("exclude", JArr [JStr "bar"])]
              (mkObject [("platform", JStr "ios");
                         ("searchPaths", JArr [JStr "/app/node_modules"])]
                        (ValuePrototype (JObj [("exclude", JArr [JStr "bar"])]))))
    as (Hproto & Hown & Hread); try (vm_compute; reflexivity).
  - repeat constructor. simpl. tauto.
  - simpl. intros [Heq|[]]. discriminate.
  - split; [exact Hproto|]. split; [exact Hown|]. split; [reflexivity|].
    apply (Hread "exclude"); reflexivity.
Defined.

(** *** What [resolveModulesAsync] returns *)

(** The descriptor that an entry of the search results gives, if any: none
    when the resolver's value is falsy. *)
Definition described (resolveModule : string -> PrimaryRevision -> Obj JVal -> Outcome JVal)
           (options : Obj JVal) (entry : string * PrimaryRevision)
  : list ModuleDescriptor :=
  match resolveModule (fst entry) (snd entry) options with
  | Ok resolved =>
      if truthy resolved then [describe (fst entry) (snd entry) resolved] else []
  | _ => []
  end.

Lemma insertSorted_perm {A : Type} (cmp : A -> A -> Outcome Z) x l r :
  insertSorted cmp x l = Ok r -> Permutation r (x :: l).
Proof.
  revert r. induction l as [|y l IH]; simpl; intros r.
  - now intros [= <-].
  - destruct (cmp x y) as [c| |]; simpl; try discriminate.
    destruct (c <=? 0)%Z.
    + now intros [= <-].
    + destruct (insertSorted cmp x l) as [r'| |]; simpl; try discriminate.
      intros [= <-]. rewrite (IH r' eq_refl). apply perm_swap.
Qed.

Lemma arraySort_perm {A : Type} (cmp : A -> A -> Outcome Z) l r :
  arraySort cmp l = Ok r -> Permutation r l.
Proof.
  revert r. induction l as [|x l IH]; simpl; intros r.
  - now intros [= <-].
  - destruct (arraySort cmp l) as [r'| |]; simpl; try discriminate.
    intros Hi. apply insertSorted_perm in Hi. rewrite Hi. now rewrite (IH r').
Qed.

Lemma collect_Ok {A : Type} (l : list (Outcome A)) r :
  collect l = Ok r -> l = map Ok r.
Proof.
  revert r. induction l as [|[a|e|] l IH]; simpl; intros r; try discriminate.
  - now intros [= <-].
  - destruct (collect l) as [r'| |]; simpl; try discriminate.
    intros [= <-]. simpl. now rewrite (IH r').
Qed.

Lemma promiseAll_Ok {A : Type} order (l : list (Outcome A)) r :
  promiseAll order l = Ok r -> l = map Ok r.
Proof.
  unfold promiseAll. destruct (firstThrow _); [discriminate|]. apply collect_Ok.
Qed.

Lemma filterBoolean_described platformLinking resolveModule options es r :
  resolveModuleAsync platformLinking = Some resolveModule ->
  map (resolveOne platformLinking options) es = map Ok r ->
  filterBoolean r = flat_map (described resolveModule options) es.
Proof.
  intros Hf. revert r. induction es as [|[n rev] es IH]; intros [|d r]; simpl;
    try discriminate; auto.
  intros [= Hd Hrest]. rewrite <- (IH r Hrest). unfold resolveOne in Hd.
  rewrite Hf in Hd. unfold described. simpl.
  destruct (resolveModule n rev options) as [v| |]; simpl in Hd; try discriminate.
  inversion Hd. destruct (truthy v); reflexivity.
Qed.

Lemma described_length resolveModule options es :
  (List.length (flat_map (described resolveModule options) es) <= List.length es)%nat.
Proof.
  induction es as [|e es IH]; simpl; auto.
  rewrite length_app. unfold described at 1.
  destruct (resolveModule (fst e) (snd e) options) as [v| |]; simpl; try lia.
  destruct (truthy v); simpl; lia.
Qed.

(** X8. The list that [resolveModulesAsync] returns holds, in some order,
    one descriptor for each package whose resolver value is truthy and
    nothing else: a package resolved to [null] (or to another falsy value) is
    left out without an error, so the list is never longer than the
    mapping. *)
Theorem resolveModulesAsync_content :
  forall (H : Host) (order : list nat) (searchResults : SearchResults)
         (options : Obj JVal) (platformLinking : PlatformLinking)
         (resolveModule : string -> PrimaryRevision -> Obj JVal -> Outcome JVal)
         (l : list ModuleDescriptor),
    requirePlatform H (platformModule options) = Ok platformLinking ->
    resolveModuleAsync platformLinking = Some resolveModule ->
    resolveModulesAsync H order searchResults options = Ok l ->
    Permutation l (flat_map (described resolveModule options) searchResults) /\
    (List.length l <= List.length searchResults)%nat.
Proof.
  intros H order sr options pl f l Hpl Hf. unfold resolveModulesAsync.
  rewrite Hpl. cbn [bind].
  destruct (promiseAll order (map (resolveOne pl options) (entries sr)))
    as [r| |] eqn:Ep; cbn [bind]; try discriminate.
  intros Hsort. apply arraySort_perm in Hsort. apply promiseAll_Ok in Ep.
  rewrite (filterBoolean_described pl f options _ _ Hf Ep) in Hsort.
  assert (Hperm : Permutation l (flat_map (described f options) sr)).
  { rewrite Hsort. apply Permutation_flat_map, entries_perm. }
  split; auto. rewrite (Permutation_length Hperm). apply described_length.
Qed.

Lemma resolveModulesAsync_content_witness :
  Permutation projectModules
    (flat_map (described Demo.podResolve Demo.iosOptions)
              (("skipped", fooEntry) :: projectResults)) /\
  (List.length projectModules <= 3)%nat.
Proof.
  apply (resolveModulesAsync_content Demo.project [0; 1; 2]%nat
           (("skipped", fooEntry) :: projectResults) Demo.iosOptions
           Demo.podLinking Demo.podResolve projectModules).
  - vm_compute. reflexivity.
  - reflexivity.
  - vm_compute. reflexivity.
Defined.

(** X9. A descriptor that [resolveModulesAsync] returns comes from an entry
    of the mapping whose resolver value is truthy, and each of its fields is
    the resolver's own property of that name if it has one, and otherwise
    the entry's name for [packageName], the version of its primary for
    [packageVersion], and absent for any other key: the platform fields are
    spread last and win. *)
Theorem resolveModulesAsync_descriptor_fields :
  forall (H : Host) (order : list nat) (searchResults : SearchResults)
         (options : Obj JVal) (platformLinking : PlatformLinking)
         (resolveModule : string -> PrimaryRevision -> Obj JVal -> Outcome JVal)
         (l : list ModuleDescriptor) (d : ModuleDescriptor),
    requirePlatform H (platformModule options) = Ok platformLinking ->
    resolveModuleAsync platformLinking = Some resolveModule ->
    resolveModulesAsync H order searchResults options = Ok l ->
    In d l ->
    exists packageName revision resolved,
      In (packageName, revision) searchResults /\
      resolveModule packageName revision options = Ok resolved /\
      truthy resolved = true /\
      forall k,
        get k d
        = orElse (copied k resolved)
                 (get k [("packageName", JStr packageName);
                         ("packageVersion", JStr (version (primary revision)))]).
Proof.
  intros H order sr options pl f l d Hpl Hf. unfold resolveModulesAsync.
  rewrite Hpl. cbn [bind].
  destruct (promiseAll order (map (resolveOne pl options) (entries sr)))
    as [r| |] eqn:Ep; cbn [bind]; try discriminate.
  intros Hsort Hin. apply arraySort_perm in Hsort. apply promiseAll_Ok in Ep.
  rewrite (filterBoolean_described pl f options _ _ Hf Ep) in Hsort.
  apply (Permutation_in _ Hsort) in Hin.
  apply in_flat_map in Hin as ([n rev] & Hentry & Hd).
  apply (proj1 (entries_In _ _)) in Hentry.
  unfold described in Hd. simpl in Hd.
  destruct (f n rev options) as [v| |] eqn:Ev; try (destruct Hd; fail).
  destruct (truthy v) eqn:Et; [|destruct Hd].
  destruct Hd as [<-|[]]. exists n, rev, v. repeat split; auto.
  intros k. unfold describe, copied. apply get_spreadProps.
Qed.

Lemma resolveModulesAsync_descriptor_fields_witness :
  exists packageName revision resolved,
    In (packageName, revision) projectResults /\
    Demo.podResolve packageName revision Demo.iosOptions = Ok resolved /\
    truthy resolved = true /\
    forall k,
      get k [("packageName", JStr "bar"); ("packageVersion", JStr "2.0.0");
             ("podName", JStr "bar")]
      = orElse (copied k resolved)
               (get k [("packageName", JStr packageName);
                       ("packageVersion", JStr (version (primary revision)))]).
Proof.
  apply (resolveModulesAsync_descriptor_fields Demo.project [0; 1]%nat projectResults
           Demo.iosOptions Demo.podLinking Demo.podResolve projectModules).
  - vm_compute. reflexivity.
  - reflexivity.
  - vm_compute. reflexivity.
  - left. reflexivity.
Defined.

(** *** [generatePackageListAsync] *)

(** X10. [generatePackageListAsync] never throws, whatever the platform
    module and its emitter do.  What an emitter wrote stays written; when
    it fulfils nothing is printed, and when it throws the error is
    swallowed and reported as the platform being unavailable. *)
Theorem generatePackageListAsync_never_throws :
  forall (H : Host) (modules : list ModuleDescriptor) (options : Obj JVal) (w : World),
    (forall e, fst (generatePackageListAsync H modules options w) <> Throw e) /\
    (forall platformLinking emit outcome written,
        requirePlatform H (platformModule options) = Ok platformLinking ->
        emitPackageListAsync platformLinking = Some emit ->
        emit modules (orUndef (get "target" options))
             (orUndef (get "namespace" options)) = (outcome, written) ->
        (outcome = Ok tt ->
         generatePackageListAsync H modules options w
         = (Ok tt, mkWorld (artifacts w ++ written) (console w))) /\
        (forall e, outcome = Throw e ->
                   generatePackageListAsync H modules options w
                   = (Ok tt, mkWorld (artifacts w ++ written)
                               (console w ++ [unavailableMessage H options])))).
Proof.
  intros H modules options w. split.
  - intros e. unfold generatePackageListAsync.
    destruct (tryGenerate H modules options) as [[[]| |] written]; simpl; discriminate.
  - intros pl emit outcome written Hpl Hemit Hrun.
    unfold generatePackageListAsync, tryGenerate. rewrite Hpl, Hemit, Hrun.
    split; [intros ->|intros e ->]; reflexivity.
Qed.

(** An emitter that fails after the platform module is found. *)
Definition failingLinking : PlatformLinking :=
  {| resolveModuleAsync := None;
     emitPackageListAsync :=
       Some (fun _ _ _ => (Throw (HostError "EACCES: permission denied"), [])) |}.

Definition failingEmitterHost : Host :=
  Demo.tableHost "/app" [] [] [] [] [] [("./platforms/android", failingLinking)].

Lemma generatePackageListAsync_never_throws_witness :
  generatePackageListAsync failingEmitterHost projectModules
    [("platform", JStr "android")] emptyWorld
  = (Ok tt,
     mkWorld [] ["Generating package list is not available for platform: android"]).
Proof.
  exact (proj2
           (proj2 (generatePackageListAsync_never_throws failingEmitterHost
                     projectModules [("platform", JStr "android")] emptyWorld)
                  failingLinking
                  (fun _ _ _ => (Throw (HostError "EACCES: permission denied"), []))
                  (Throw (HostError "EACCES: permission denied")) []
                  eq_refl eq_refl eq_refl)
           (HostError "EACCES: permission denied") eq_refl).
Defined.

(** *** A manifest in the root directory *)

(** X11. When the walk up from [cwd] reaches a directory that holds the
    manifest found from it (a [package.json] in the root directory),
    [findDefaultPathsAsync] does not return, however long it runs, and
    neither does [resolveSearchPathsAsync] without explicit paths. *)
Theorem findDefaultPathsAsync_never_returns :
  forall (H : Host) (cwd : string),
    loopsFrom H cwd ->
    forall fuel,
      findDefaultPathsAsync H fuel cwd = Diverge /\
      resolveSearchPathsAsync H fuel JNull cwd = Diverge /\
      resolveSearchPathsAsync H fuel (JArr []) cwd = Diverge.
Proof.
  intros H cwd Hloop fuel.
  pose proof (findDefaultPathsLoop_loops H cwd Hloop fuel) as Hd.
  repeat split; apply Hd.
Qed.

Lemma findDefaultPathsAsync_never_returns_witness :
  findDefaultPathsAsync rootManifestHost 1000 "/app" = Diverge /\
  resolveSearchPathsAsync rootManifestHost 1000 JNull "/app" = Diverge /\
  resolveSearchPathsAsync rootManifestHost 1000 (JArr []) "/app" = Diverge.
Proof.
  apply (findDefaultPathsAsync_never_returns rootManifestHost "/app").
  apply (loops_above rootManifestHost "/app" "/app/package.json"); [reflexivity|].
  apply (loops_here rootManifestHost _ "/package.json"); reflexivity.
Defined.

(** *** Search paths of the wrong type *)

Lemma resolveEach_non_string H cwd items x :
  In x items -> (forall s, x <> JStr s) ->
  resolveEach H cwd items
  = Throw (TypeError "The path argument must be of type string").
Proof.
  induction items as [|y items IH]; simpl; [tauto|].
  intros [->|Hin] Hx.
  - destruct x; try reflexivity. now destruct (Hx s).
  - destruct y; try reflexivity. now rewrite (IH Hin Hx).
Qed.

(** X12. [resolveSearchPathsAsync] throws a TypeError, instead of falling
    back to the default paths or taking the value as one path, when the
    search paths are a non-empty string, and when they are an array with an
    entry that is not a string. *)
Theorem resolveSearchPathsAsync_type_errors :
  forall (H : Host) (fuel : nat) (cwd : string),
    (forall s, s <> EmptyString ->
               resolveSearchPathsAsync H fuel (JStr s) cwd
               = Throw (TypeError "searchPaths.map is not a function")) /\
    (forall items x,
        In x items -> (forall s, x <> JStr s) ->
        resolveSearchPathsAsync H fuel (JArr items) cwd
        = Throw (TypeError "The path argument must be of type string")).
Proof.
  intros H fuel cwd. split.
  - intros s Hs. unfold resolveSearchPathsAsync.
    destruct s as [|c s]; [contradiction|]. reflexivity.
  - intros items x Hin Hx. unfold resolveSearchPathsAsync.
    destruct items as [|y items]; [destruct Hin|].
    replace (truthy (JArr (y :: items)) &&
             greaterThanZero H (getPropOpt (JArr (y :: items)) "length"))
      with true by reflexivity.
    now apply (resolveEach_non_string H cwd (y :: items) x).
Qed.

Lemma resolveSearchPathsAsync_type_errors_witness :
  resolveSearchPathsAsync Demo.project 3 (JStr "../modules") "/app"
  = Throw (TypeError "searchPaths.map is not a function") /\
  resolveSearchPathsAsync Demo.project 3 (JArr [JStr "node_modules"; JNum 1]) "/app"
  = Throw (TypeError "The path argument must be of type string").
Proof.
  destruct (resolveSearchPathsAsync_type_errors Demo.project 3 "/app") as [Hs Ha].
  split.
  - apply Hs. discriminate.
  - apply (Ha [JStr "node_modules"; JNum 1] (JNum 1)).
    + right. left. reflexivity.
    + discriminate.
Defined.

(** *** What the root manifest can do to the merge *)

(** X13. A root manifest that cannot be loaded makes
    [mergeLinkingOptionsAsync] throw the loader's error, and one that is
    [null] makes it throw a TypeError; a manifest without an
    [expo.autolinking] section contributes nothing: the result is a copy of
    the provided options with [searchPaths] resolved. *)
Theorem mergeLinkingOptionsAsync_root_manifest :
  forall (H : Host) (fuel : nat) (providedOptions : JsObject),
    (forall e, rootManifest H = Throw e ->
               mergeLinkingOptionsAsync H fuel providedOptions = Throw e) /\
    (rootManifest H = Ok JNull ->
     exists msg, mergeLinkingOptionsAsync H fuel providedOptions
                 = Throw (TypeError msg)) /\
    (forall packageJson expo,
        rootManifest H = Ok packageJson ->
        getProp packageJson "expo" = Ok expo ->
        getPropOpt expo "autolinking" = JUndef ->
        let copy := assignProps emptyObject (ownProps (JObj (ownOf providedOptions))) in
        mergeLinkingOptionsAsync H fuel providedOptions
        = (searchPaths <- resolveSearchPathsAsync H fuel
                            (readProp copy "searchPaths") (processCwd H) ;;
           Ok (writeProp copy "searchPaths" (JArr (map JStr searchPaths))))).
Proof.
  intros H fuel provided. unfold rootManifest. split; [|split].
  - intros e Hroot. unfold mergeLinkingOptionsAsync. now rewrite Hroot.
  - intros Hroot. unfold mergeLinkingOptionsAsync. rewrite Hroot. simpl. eauto.
  - intros pj expo Hroot Hexpo Hbase. cbv zeta.
    rewrite (mergeLinkingOptionsAsync_eval H fuel provided pj expo Hroot Hexpo).
    rewrite Hbase.
    assert (Hcopy : objectAssign emptyObject
                      [JUndef;
                       requestedSection JUndef (readProp provided "platform");
                       JObj (ownOf provided)]
                    = assignProps emptyObject (ownProps (JObj (ownOf provided)))).
    { unfold objectAssign, requestedSection. cbn [fold_left].
      destruct (truthy (readProp provided "platform")); reflexivity. }
    now rewrite Hcopy.
Qed.

Lemma mergeLinkingOptionsAsync_root_manifest_witness :
  mergeLinkingOptionsAsync Demo.threeCopies 1 (plain Demo.threeOptions)
  = Ok (plain [("platform", JStr "ios");
               ("searchPaths", JArr [JStr "/a"; JStr "/b"; JStr "/c"])]).
Proof.
  destruct (mergeLinkingOptionsAsync_root_manifest Demo.threeCopies 1
              (plain Demo.threeOptions)) as (_ & _ & Hnone).
  rewrite (Hnone (JObj []) JUndef eq_refl eq_refl eq_refl).
  vm_compute. reflexivity.
Defined.

(** *** Where a recorded revision comes from *)

(** The revisions of an entry: its primary and its duplicates. *)
Definition revisionsOf (r : PrimaryRevision) : list PackageRevision :=
  primary r :: match duplicates r with
               | Some ds => ds
               | None => []
               end.

Lemma record_revisions n r rev results c :
  get n (record results c) = Some r -> In rev (revisionsOf r) ->
  (exists r0, get n results = Some r0 /\ In rev (revisionsOf r0)) \/
  c = Some (n, rev).
Proof.
  destruct c as [[k cur]|]; simpl; [|eauto].
  destruct (recordRevision_cases k cur results)
    as [(Hnone & _ & ->) | [(found & ds & Hget & Hds & _ & _ & ->)
       | [(_ & _ & _ & ->) | (_ & _ & ->)]]];
    [| |eauto|eauto].
  - destruct (string_dec k n) as [->|Hne].
    + rewrite get_set_same. intros [= <-] [<-|[]]. auto.
    + rewrite get_set_other by auto. eauto.
  - destruct (string_dec k n) as [->|Hne].
    + rewrite get_set_same. intros [= <-]. unfold revisionsOf. simpl.
      rewrite in_app_iff. intros [<-|[Hin|[<-|[]]]]; auto.
      * left. exists found. split; auto; unfold revisionsOf; simpl; auto.
      * left. exists found. split; auto; unfold revisionsOf; rewrite Hds;
          simpl; auto.
    + rewrite get_set_other by auto. eauto.
Qed.

Lemma fold_revisions n r rev candidates results :
  get n (fold_left record candidates results) = Some r -> In rev (revisionsOf r) ->
  (exists r0, get n results = Some r0 /\ In rev (revisionsOf r0)) \/
  In (Some (n, rev)) candidates.
Proof.
  revert results. induction candidates as [|c cs IH]; simpl; intros results Hget Hin.
  - eauto.
  - destruct (IH _ Hget Hin) as [(r1 & Hget1 & Hin1)|Hc]; auto.
    destruct (record_revisions _ _ _ _ _ Hget1 Hin1) as [Hold|Hc]; auto.
Qed.

(** X14. Every revision in the results of [findModulesAsync], primary or
    duplicate, was read from a package visited by the scan: its path is the
    real path of the package directory, its version and the name it is filed
    under are those of the [package.json] at that path, and the config file
    kept for the directory lists the requested platform. *)
Theorem findModulesAsync_revisions_are_read :
  forall (H : Host) (fuel : nat) (providedOptions options : JsObject)
         (results : SearchResults) (n : string) (r : PrimaryRevision)
         (revision : PackageRevision),
    mergeLinkingOptionsAsync H fuel providedOptions = Ok options ->
    findModulesAsync H fuel providedOptions = Ok results ->
    get n results = Some r ->
    In revision (revisionsOf r) ->
    exists searchPath configPath packageConfig manifest platforms supported,
      In (searchPath, configPath) (scanOrder H (searchPathsOf options)) /\
      realpath H (pathJoin H [searchPath; pathDirname H configPath])
      = Ok (path revision) /\
      requireJson H (pathJoin H [path revision; pathBasename H configPath])
      = Ok packageConfig /\
      requireManifest H (pathJoin H [path revision; "package.json"]) = Ok manifest /\
      name manifest = n /\
      pkgVersion manifest = version revision /\
      getProp packageConfig "platforms" = Ok platforms /\
      includesOpt platforms (readProp options "platform") = Ok supported /\
      truthy supported = true.
Proof.
  intros H fuel provided options results n r rev Hmerge Hfind Hget Hin.
  apply findModulesAsync_unfold in Hfind as (options' & cs & Hmerge' & Hall & ->).
  assert (options' = options) by congruence. subst options'.
  destruct (fold_revisions _ _ _ _ _ Hget Hin) as [(r0 & Hr0 & _)|Hc];
    [discriminate|].
  destruct (Forall2_In_r _ _ _ _ Hall Hc) as ([sp p] & Hv & Hd).
  unfold discovered in Hd. simpl in Hd. unfold discover in Hd.
  destruct (realpath H _) as [pp| |] eqn:Er; cbn [bind] in Hd; try discriminate.
  destruct (requireJson H _) as [cfg| |] eqn:Ec; cbn [bind] in Hd; try discriminate.
  destruct (requireManifest H _) as [m| |] eqn:Em; cbn [bind] in Hd; try discriminate.
  unfold skipPackage in Hd.
  destruct (includesOpt _ (JStr (name m))) as [ex| |]; cbn [bind] in Hd;
    try discriminate.
  destruct (truthy ex); cbn [bind] in Hd; [discriminate|].
  destruct (getProp cfg "platforms") as [pf| |] eqn:Ep; cbn [bind] in Hd;
    try discriminate.
  destruct (includesOpt pf _) as [s| |] eqn:Es; cbn [bind] in Hd; try discriminate.
  destruct (truthy s) eqn:Et; simpl in Hd; [|discriminate].
  inversion Hd. subst n rev. simpl.
  exists sp, p, cfg, m, pf, s. repeat split; auto.
Qed.

Lemma findModulesAsync_revisions_are_read_witness :
  exists searchPath configPath packageConfig manifest platforms supported,
    In (searchPath, configPath)
       (scanOrder Demo.project (searchPathsOf (plain projectOptions))) /\
    realpath Demo.project
      (pathJoin Demo.project [searchPath; pathDirname Demo.project configPath])
    = Ok "/app/vendor/bar" /\
    requireJson Demo.project
      (pathJoin Demo.project ["/app/vendor/bar"; pathBasename Demo.project configPath])
    = Ok packageConfig /\
    requireManifest Demo.project
      (pathJoin Demo.project ["/app/vendor/bar"; "package.json"]) = Ok manifest /\
    name manifest = "bar" /\
    pkgVersion manifest = "2.1.0" /\
    getProp packageConfig "platforms" = Ok platforms /\
    includesOpt platforms (readProp (plain projectOptions) "platform") = Ok supported /\
    truthy supported = true.
Proof.
  apply (findModulesAsync_revisions_are_read Demo.project 3 (plain Demo.iosOptions)
           (plain projectOptions) projectResults "bar" barEntry
           (mkRevision "/app/vendor/bar" "2.1.0")).
  - vm_compute. reflexivity.
  - vm_compute. reflexivity.
  - reflexivity.
  - right. left. reflexivity.
Defined.

(** *** An [exclude] that is not a list *)

(** X15. When the effective [exclude] is a string instead of a list,
    [includes] is the string's: every package whose name occurs inside that
    string is left out of the results.  When it is a number, a boolean or an
    object, the first package that is read makes the scan throw a
    TypeError. *)
Theorem findModulesAsync_exclude_not_a_list :
  forall (H : Host) (fuel : nat) (providedOptions options : JsObject),
    mergeLinkingOptionsAsync H fuel providedOptions = Ok options ->
    (forall s n results,
        readProp options "exclude" = JStr s ->
        strIncludes n s = true ->
        findModulesAsync H fuel providedOptions = Ok results ->
        get n results = None) /\
    (forall searchPath packageConfigPath packagePath packageConfig manifest,
        (exists b, readProp options "exclude" = JBool b) \/
        (exists z, readProp options "exclude" = JNum z) \/
        (exists o, readProp options "exclude" = JObj o) ->
        realpath H (pathJoin H [searchPath; pathDirname H packageConfigPath])
        = Ok packagePath ->
        requireJson H (pathJoin H [packagePath; pathBasename H packageConfigPath])
        = Ok packageConfig ->
        requireManifest H (pathJoin H [packagePath; "package.json"]) = Ok manifest ->
        discover H options searchPath packageConfigPath
        = Throw (TypeError "includes is not a function")).
Proof.
  intros H fuel provided options Hmerge. split.
  - intros s n results Hex Hsub Hfind.
    apply findModulesAsync_unfold in Hfind as (options' & cs & Hmerge' & Hall & ->).
    assert (options' = options) by congruence. subst options'.
    rewrite fold_get_other; auto.
    intros rev Hc. destruct (Forall2_In_r _ _ _ _ Hall Hc) as ([sp p] & _ & Hd).
    destruct (discover_not_excluded _ _ _ _ _ _ Hd) as (e & He & Hfalse).
    rewrite Hex in He. simpl in He. rewrite Hsub in He. inversion He. subst e.
    discriminate.
  - intros sp p pp cfg m Hex Hreal Hcfg Hman. unfold discover.
    rewrite Hreal. cbn [bind]. rewrite Hcfg. cbn [bind]. rewrite Hman. cbn [bind].
    unfold skipPackage.
    destruct Hex as [[b ->]|[[z ->]|[o ->]]]; reflexivity.
Qed.

Definition stringExcludeOptions : Obj JVal :=
  [("platform", JStr "ios"); ("exclude", JStr "foobar")].

Definition stringExcludeResults : SearchResults :=
  [("baz", mkPrimary (mkRevision "/app/node_modules/@scope/baz" "0.1.0") (Some []))].

Lemma findModulesAsync_exclude_not_a_list_witness :
  get "foo" stringExcludeResults = None /\ get "bar" stringExcludeResults = None.
Proof.
  destruct (findModulesAsync_exclude_not_a_list Demo.project 3
              (plain stringExcludeOptions)
              (plain [("exclude", JStr "foobar");
                      ("searchPaths", JArr [JStr "/app/node_modules"; JStr "/app/vendor"]);
                      ("ios", JObj [("searchPaths",
                                     JArr [JStr "node_modules"; JStr "vendor"])]);
                      ("platform", JStr "ios")])) as [Hstring _].
  - vm_compute. reflexivity.
  - split.
    + apply (Hstring "foobar" "foo" stringExcludeResults);
        [reflexivity | reflexivity | vm_compute; reflexivity].
    + apply (Hstring "foobar" "bar" stringExcludeResults);
        [reflexivity | reflexivity | vm_compute; reflexivity].
Defined.

(** With the string [foobar] as [exclude], [foo] and [bar] are both left
    out and [baz], which the manifest excluded, is back. *)
Example stringExclude_findModules :
  findModulesAsync Demo.project 3 (plain stringExcludeOptions)
  = Ok stringExcludeResults.
Proof. vm_compute. reflexivity. Qed.

(** The report of [verifySearchResults] on the project. *)
Definition plainReporter : Reporter :=
  {| pathRelative := fun _ p => p;
     chalkGreen := fun s => s;
     chalkMagenta := fun s => s;
     chalkCyan := fun s => s;
     chalkGray := fun s => s |}.

Example verifySearchResults_project :
  verifySearchResultsReport plainReporter Demo.project projectResults
  = (1, [Warn "⚠️  Found multiple revisions of bar";
         Log " - /app/node_modules/bar (2.0.0)";
         Log " - /app/vendor/bar (2.1.0)";
         Warn multipleRevisionsSummary]).
Proof. vm_compute. reflexivity. Qed.
